(** * LuStA Messenger: the message routing and state core

    A shallow embedding of [src/database.py] (the two tables) and
    [src/main.py] (the HTTP query handlers and the WebSocket endpoint),
    followed by the properties of the routing core.

    Conventions of the embedding.
    - Python integers are [Z]; WebSocket objects are identified by a
      [nat] handle; a [datetime] is the [Z] it denotes (its ISO rendering
      is injective, so frames carry the [Z]).
    - A table is the list of its rows in rowid order.
    - The process-wide dictionaries [active_connections] and
      [user_sessions] are finite maps keyed by username.
    - [bcrypt] is outside the model: a login event carries the outcome of
      [check_password], and the password hash column is not represented.
    - A request, and one pass of a coroutine through its loop body, runs
      to its end as one transition; database operations succeed unless a
      column constraint is violated. *)

From stdpp Require Import gmap strings list fin_maps sorting.
From Stdlib Require Import ZArith Sorted.

Open Scope Z_scope.

(** ** database.py *)

Module User.
Record t : Type := mk { id : Z; username : string }.
End User.

Module Message.
Record t : Type := mk {
  id : Z;
  sender_id : Z;
  receiver_id : Z;
  content : string;
  timestamp : Z;
  is_read : Z   (* 0 - unread, 1 - read; column default 0 *)
}.

(** [message.is_read = 1] on a loaded row. *)
Definition set_is_read (v : Z) (m : t) : t :=
  mk (id m) (sender_id m) (receiver_id m) (content m) (timestamp m) v.
End Message.

#[global] Instance User_eq_dec : EqDecision User.t.
Proof. solve_decision. Defined.

#[global] Instance Message_eq_dec : EqDecision Message.t.
Proof. solve_decision. Defined.

Record Db : Type := mkDb {
  users : list User.t;
  messages : list Message.t
}.

(** The key SQLite gives to a row inserted without one: one more than the
    largest key in the table, 1 for an empty table. *)
Definition next_id (ids : list Z) : Z := 1 + foldr Z.max 0 ids.

(** [db.query(User).filter(User.username == name).first()]; a [None]
    name compiles to [IS NULL], which no row satisfies since the column
    is [nullable=False]. *)
Definition user_by_username (db : Db) (name : option string) : option User.t :=
  match name with
  | Some n => head (filter (λ u, User.username u = n) (users db))
  | None => None
  end.

(** [db.query(User).filter(User.id == i).first()] *)
Definition user_by_id (db : Db) (i : Z) : option User.t :=
  head (filter (λ u, User.id u = i) (users db)).

(** The filter shared by [get_user_chats] and [get_messages]: the rows
    of the conversation between [user_id] and [partner_id], both
    directions. *)
Definition in_chat (user_id partner_id : Z) (m : Message.t) : Prop :=
  (Message.sender_id m = user_id ∧ Message.receiver_id m = partner_id) ∨
  (Message.sender_id m = partner_id ∧ Message.receiver_id m = user_id).

#[global] Instance in_chat_dec u p m : Decision (in_chat u p m).
Proof. unfold in_chat. apply _. Defined.

(** [ORDER BY timestamp]: a stable insertion sort, ties stay in rowid
    order. [le a b] says that a row stamped [a] may precede one stamped
    [b]. *)
Section OrderBy.
Variable le : Z → Z → bool.

Fixpoint insert_row (m : Message.t) (l : list Message.t) : list Message.t :=
  match l with
  | [] => [m]
  | x :: l' =>
      if le (Message.timestamp m) (Message.timestamp x)
      then m :: x :: l'
      else x :: insert_row m l'
  end.

Definition order_by (l : list Message.t) : list Message.t :=
  foldr insert_row [] l.
End OrderBy.

Definition order_by_timestamp_asc : list Message.t → list Message.t :=
  order_by Z.leb.
Definition order_by_timestamp_desc : list Message.t → list Message.t :=
  order_by Z.geb.

(** Ascending by timestamp. *)
Definition earlier (a b : Message.t) : Prop :=
  Message.timestamp a ≤ Message.timestamp b.

(** ** main.py: the query handlers *)

(** [POST /register]. The response is the new user id, or the 400 of a
    taken username. *)
Definition register (username : string) (db : Db) : Db * option Z :=
  match user_by_username db (Some username) with
  | Some _ => (db, None)
  | None =>
      let new_id := next_id (User.id <$> users db) in
      (mkDb (users db ++ [User.mk new_id username]) (messages db), Some new_id)
  end.

(** One element of the ["chats"] list of [GET /chats/{user_id}]. *)
Module Chat.
Record t : Type := mk {
  partner_id : Z;
  partner_username : string;
  last_message : string;
  last_message_time : option Z;   (* [None] renders as the empty string *)
  unread_count : nat
}.
End Chat.

(** The rows [partner_id] sent to [user_id] that are still unread. *)
Definition unread_from (partner_id user_id : Z) (m : Message.t) : Prop :=
  Message.sender_id m = partner_id ∧ Message.receiver_id m = user_id ∧
  Message.is_read m = 0.

#[global] Instance unread_from_dec p u m : Decision (unread_from p u m).
Proof. unfold unread_from. apply _. Defined.

Definition chat_partner_ids (user_id : Z) (db : Db) : gset Z :=
  let sent_chats :=
    remove_dups (Message.receiver_id <$>
                 filter (λ m, Message.sender_id m = user_id) (messages db)) in
  let received_chats :=
    remove_dups (Message.sender_id <$>
                 filter (λ m, Message.receiver_id m = user_id) (messages db)) in
  list_to_set (sent_chats ++ received_chats).

Definition chat_entry (user_id : Z) (db : Db) (partner_id : Z) : option Chat.t :=
  match user_by_id db partner_id with
  | Some partner =>
      let last_message :=
        head (order_by_timestamp_desc
                (filter (in_chat user_id partner_id) (messages db))) in
      Some (Chat.mk
              (User.id partner)
              (User.username partner)
              (from_option Message.content "" last_message)
              (Message.timestamp <$> last_message)
              (length (filter (unread_from partner_id user_id) (messages db))))
  | None => None
  end.

(** [GET /chats/{user_id}]. The partners are visited in the iteration
    order of a Python set, which the model leaves to [elements]. *)
Definition get_user_chats (user_id : Z) (db : Db) : list Chat.t :=
  omap (chat_entry user_id db) (elements (chat_partner_ids user_id db)).

(** One element of the ["messages"] list of
    [GET /messages/{user_id}/{partner_id}]. *)
Module MessageOut.
Record t : Type := mk {
  id : Z;
  sender_id : Z;
  sender_username : string;
  content : string;
  timestamp : Z;
  is_read : bool
}.
End MessageOut.

(** The body of the loop that marks messages as read. *)
Definition mark_read (user_id : Z) (message : Message.t) : Message.t :=
  if decide (Message.receiver_id message = user_id ∧ Message.is_read message = 0)
  then Message.set_is_read 1 message
  else message.

(** The loop runs over the rows of the query only; the commit writes
    each changed row back under its primary key. *)
Definition mark_chat_read (user_id partner_id : Z) (m : Message.t) : Message.t :=
  if decide (in_chat user_id partner_id m) then mark_read user_id m else m.

(** [msg.sender.username] raises [AttributeError] when no user row has
    the sender's id: [None]. *)
Definition message_out (db : Db) (msg : Message.t) : option MessageOut.t :=
  sender ← user_by_id db (Message.sender_id msg);
  Some (MessageOut.mk
          (Message.id msg)
          (Message.sender_id msg)
          (User.username sender)
          (Message.content msg)
          (Message.timestamp msg)
          (negb (Message.is_read msg =? 0))).

(** The query of [get_messages]. *)
Definition chat_rows (user_id partner_id : Z) (db : Db) : list Message.t :=
  order_by_timestamp_asc (filter (in_chat user_id partner_id) (messages db)).

(** [GET /messages/{user_id}/{partner_id}]: the database after the
    commit, and the response built from the refreshed rows ([None] when
    building it raises, which is after the commit). *)
Definition get_messages (user_id partner_id : Z) (db : Db)
  : Db * option (list MessageOut.t) :=
  let messages' := mark_read user_id <$> chat_rows user_id partner_id db in
  let db' := mkDb (users db) (mark_chat_read user_id partner_id <$> messages db) in
  (db', mapM (message_out db') messages').

(** [POST /login]; [password_ok] is what [check_password] answers. The
    response is the user id, or the 401. *)
Definition login (username : string) (password_ok : bool)
    (db : Db) (user_sessions : gmap string Z) : gmap string Z * option Z :=
  match user_by_username db (Some username) with
  | Some user =>
      if password_ok
      then (<[username := User.id user]> user_sessions, Some (User.id user))
      else (user_sessions, None)
  | None => (user_sessions, None)
  end.

(** ** main.py: the WebSocket endpoint *)

(** A value of [active_connections]. *)
Record Connection : Type := mkConnection { websocket : nat; user_id : Z }.

(** The frames the server writes. *)
Inductive Frame : Type :=
| Error (message : string)
| NewMessage (from : string) (from_id : Z) (message : string)
             (timestamp : Z) (message_id : Z)
| MessageSent (to : string) (message_id : Z) (timestamp : Z)
| OnlineUsers (users : list string) (count : nat).

(** What the server does to sockets, in the order it does it. *)
Inductive Effect : Type :=
| Accept (ws : nat)
| Close (ws : nat) (code : Z) (reason : string)
| SendText (ws : nat) (frame : Frame).

#[global] Instance Frame_eq_dec : EqDecision Frame.
Proof. solve_decision. Defined.

#[global] Instance Effect_eq_dec : EqDecision Effect.
Proof. solve_decision. Defined.

(** The locals of a [websocket_endpoint] coroutine that is inside its
    [while True] loop. *)
Record Session : Type := mkSession { session_username : string; session_user_id : Z }.

(** The text a socket delivers, as [json.loads] and the three [.get]
    calls see it: [Malformed] when [json.loads] raises or yields no
    object, otherwise the three keys, [None] for an absent or null key.
    Values of other JSON types are outside the model. *)
Inductive Json : Type :=
| Malformed
| Object (action to message : option string).

Record State : Type := mkState {
  db : Db;
  user_sessions : gmap string Z;
  active_connections : gmap string Connection;
  handlers : gmap nat Session;     (* the running coroutines, by socket *)
  dead : gset nat;                 (* sockets on which a send raises *)
  trace : list Effect
}.

Definition initial : State := mkState (mkDb [] []) ∅ ∅ ∅ ∅ [].

Definition set_db (d : Db) (s : State) : State :=
  mkState d (user_sessions s) (active_connections s) (handlers s) (dead s) (trace s).
Definition set_user_sessions (u : gmap string Z) (s : State) : State :=
  mkState (db s) u (active_connections s) (handlers s) (dead s) (trace s).
Definition set_active_connections (a : gmap string Connection) (s : State) : State :=
  mkState (db s) (user_sessions s) a (handlers s) (dead s) (trace s).
Definition set_handlers (h : gmap nat Session) (s : State) : State :=
  mkState (db s) (user_sessions s) (active_connections s) h (dead s) (trace s).
Definition set_dead (d : gset nat) (s : State) : State :=
  mkState (db s) (user_sessions s) (active_connections s) (handlers s) d (trace s).
Definition log (e : Effect) (s : State) : State :=
  mkState (db s) (user_sessions s) (active_connections s) (handlers s) (dead s)
          (trace s ++ [e]).

Inductive Exn : Type := JSONDecodeError | IntegrityError | SendFailure.

(** One pass through the loop body either comes back to [receive_text]
    or leaves the loop by an exception; what was committed before the
    exception stays. *)
Inductive Outcome : Type :=
| Continue (s : State)
| Raise (e : Exn) (s : State).

Definition and_then (o : Outcome) (k : State → Outcome) : Outcome :=
  match o with
  | Continue s => k s
  | Raise e s => Raise e s
  end.

(** [await ws.send_text(json.dumps(frame))] *)
Definition send_text (ws : nat) (frame : Frame) (s : State) : Outcome :=
  if decide (ws ∈ dead s) then Raise SendFailure s
  else Continue (log (SendText ws frame) s).

(** [db.add(new_message); db.commit()] *)
Definition persist (m : Message.t) (d : Db) : Db :=
  mkDb (users d) (messages d ++ [m]).

(** [new_message.is_read = 1; db.commit()]: an update by primary key. *)
Definition mark_delivered (message_id : Z) (d : Db) : Db :=
  mkDb (users d)
       ((λ m, if decide (Message.id m = message_id)
              then Message.set_is_read 1 m else m) <$> messages d).

Definition not_found (to_username : option string) : string :=
  "❌ Пользователь " +:+ default "None" to_username +:+ " не найден".

(** The [send_message] branch. *)
Definition send_message (ws : nat) (username : string) (user_id : Z)
    (to_username message_text : option string) (now : Z) (s : State) : Outcome :=
  match to_username, user_by_username (db s) to_username with
  | Some to, Some receiver =>
      match message_text with
      | None => Raise IntegrityError s      (* content is NOT NULL *)
      | Some text =>
          let new_message :=
            Message.mk (next_id (Message.id <$> messages (db s)))
                       user_id (User.id receiver) text now 0 in
          let s := set_db (persist new_message (db s)) s in
          let pushed :=
            match active_connections s !! to with
            | Some conn =>
                and_then
                  (send_text (websocket conn)
                     (NewMessage username user_id text
                        (Message.timestamp new_message) (Message.id new_message)) s)
                  (λ s, Continue
                          (set_db (mark_delivered (Message.id new_message) (db s)) s))
            | None => Continue s
            end in
          and_then pushed
            (send_text ws
               (MessageSent to (Message.id new_message) (Message.timestamp new_message)))
      end
  | _, _ => send_text ws (Error (not_found to_username)) s
  end.

(** The body of the [while True] loop, after [receive_text] returned
    [data]; [now] is what [datetime.utcnow()] reads. The usernames of
    an [online_users] frame come in the order of [map_to_list], not in
    the insertion order of the Python dictionary. *)
Definition on_text (ws : nat) (ses : Session) (data : Json) (now : Z)
    (s : State) : Outcome :=
  match data with
  | Malformed => Raise JSONDecodeError s
  | Object action to message =>
      if decide (action = Some "send_message") then
        send_message ws (session_username ses) (session_user_id ses) to message now s
      else if decide (action = Some "get_online_users") then
        let online_users := (map_to_list (active_connections s)).*1 in
        send_text ws (OnlineUsers online_users (length online_users)) s
      else Continue s
  end.

(** [if username in active_connections: del active_connections[username]] *)
Definition deregister (username : string)
    (active_connections : gmap string Connection) : gmap string Connection :=
  if decide (is_Some (active_connections !! username))
  then delete username active_connections
  else active_connections.

(** Both [except] clauses: the entry of the username goes, the
    coroutine returns, and the server closes its socket. *)
Definition leave (ws : nat) (ses : Session) (s : State) : State :=
  set_dead ({[ws]} ∪ dead s)
    (set_handlers (delete ws (handlers s))
       (set_active_connections
          (deregister (session_username ses) (active_connections s)) s)).

(** The endpoint up to its loop. *)
Definition connect (ws : nat) (username : string) (s : State) : State :=
  let s := log (Accept ws) s in
  match user_sessions s !! username with
  | Some user_id =>
      if decide (user_id = 0) then
        set_dead ({[ws]} ∪ dead s) (log (Close ws 1008 "User not authenticated") s)
      else
        set_handlers (<[ws := mkSession username user_id]> (handlers s))
          (set_active_connections
             (<[username := mkConnection ws user_id]> (active_connections s)) s)
  | None =>
      set_dead ({[ws]} ∪ dead s) (log (Close ws 1008 "User not authenticated") s)
  end.

(** ** The system as a transition function

    A socket arrives once: a [WsConnect] for a socket that already has
    a coroutine or is already gone is no event of the system and leaves
    the state as it is, as does a frame or a disconnect for a socket
    without a coroutine. *)

Inductive Event : Type :=
| HttpRegister (username : string)
| HttpLogin (username : string) (password_ok : bool)
| HttpGetMessages (user_id partner_id : Z)
| WsConnect (ws : nat) (username : string)     (* a new socket arrives *)
| WsText (ws : nat) (data : Json) (now : Z)    (* [receive_text] returns *)
| WsDisconnect (ws : nat)                      (* [receive_text] raises *)
| ChannelLost (ws : nat).                      (* the peer is gone, unnoticed *)

Definition step (s : State) (ev : Event) : State :=
  match ev with
  | HttpRegister username => set_db (register username (db s)).1 s
  | HttpLogin username password_ok =>
      set_user_sessions (login username password_ok (db s) (user_sessions s)).1 s
  | HttpGetMessages user_id partner_id =>
      set_db (get_messages user_id partner_id (db s)).1 s
  | WsConnect ws username =>
      if decide (is_Some (handlers s !! ws) ∨ ws ∈ dead s) then s
      else connect ws username s
  | WsText ws data now =>
      match handlers s !! ws with
      | Some ses =>
          match on_text ws ses data now s with
          | Continue s' => s'
          | Raise _ s' => leave ws ses s'
          end
      | None => s
      end
  | WsDisconnect ws =>
      match handlers s !! ws with
      | Some ses => leave ws ses s
      | None => s
      end
  | ChannelLost ws =>
      if decide (is_Some (handlers s !! ws)) then set_dead ({[ws]} ∪ dead s) s else s
  end.

Definition run (s : State) (evs : list Event) : State := foldl step s evs.

(** The sockets' view of a trace. *)
Definition received (ws : nat) (tr : list Effect) : list Frame :=
  omap (λ e, match e with
             | SendText ws' f => if decide (ws' = ws) then Some f else None
             | _ => None
             end) tr.

Definition closes (ws : nat) (tr : list Effect) : list (Z * string) :=
  omap (λ e, match e with
             | Close ws' code reason =>
                 if decide (ws' = ws) then Some (code, reason) else None
             | _ => None
             end) tr.

(** The column read as the specification's delivery state. The code
    keeps one flag: a live push and a history fetch both store 1, and
    the flag 1 is named [Read] here whichever of the two wrote it. What
    depends on telling Delivered from Read is stated on the flag. *)
Inductive DeliveryState : Type := Sent | Delivered | Read.

Definition rank (d : DeliveryState) : Z :=
  match d with Sent => 0 | Delivered => 1 | Read => 2 end.

Definition delivery_state (m : Message.t) : DeliveryState :=
  if decide (Message.is_read m = 0) then Sent else Read.

Definition state_of (o : Outcome) : State :=
  match o with Continue s => s | Raise _ s => s end.

(** A row either stays as it is or goes from unread to read. *)
Definition advances (m m' : Message.t) : Prop :=
  m' = m ∨ (Message.is_read m = 0 ∧ m' = Message.set_is_read 1 m).

(** The table keeps its rows in place, each one advanced, and may have
    grown at the end. *)
Definition rows_advance (old new : list Message.t) : Prop :=
  ∃ old' extra, new = old' ++ extra ∧ Forall2 advances old old'.

(** The directory knows [name] under the id [uid]. *)
Definition known (d : Db) (name : string) (uid : Z) : Prop :=
  ∃ user, user_by_username d (Some name) = Some user ∧ User.id user = uid.

(** Every id held by a login session or by a running coroutine is the
    id the directory has for that username. *)
Definition sessions_consistent (s : State) : Prop :=
  (∀ name uid, user_sessions s !! name = Some uid → known (db s) name uid) ∧
  (∀ ws ses, handlers s !! ws = Some ses →
             known (db s) (session_username ses) (session_user_id ses)).

(** Every message row has a sender in the directory. *)
Definition senders_known (d : Db) : Prop :=
  ∀ m, m ∈ messages d → is_Some (user_by_id d (Message.sender_id m)).

(** Two response entries show the same message: they agree on every
    field but the read flag. *)
Definition same_message (o o' : MessageOut.t) : Prop :=
  MessageOut.id o = MessageOut.id o' ∧
  MessageOut.sender_id o = MessageOut.sender_id o' ∧
  MessageOut.sender_username o = MessageOut.sender_username o' ∧
  MessageOut.content o = MessageOut.content o' ∧
  MessageOut.timestamp o = MessageOut.timestamp o'.

(** [GET /users]: the pairs of id and username, in table order. *)
Definition get_users (db : Db) : list (Z * string) :=
  (λ u, (User.id u, User.username u)) <$> users db.

(** The directory has every username once and every id once, and its
    ids start at 1. *)
Definition directory_ok (d : Db) : Prop :=
  NoDup (User.username <$> users d) ∧
  NoDup (User.id <$> users d) ∧
  ∀ u, u ∈ users d → 1 ≤ User.id u.

(** Every registry entry holds the socket of a coroutine that is in
    its loop for that username, with the same id. *)
Definition registry_live (s : State) : Prop :=
  ∀ name conn, active_connections s !! name = Some conn →
    handlers s !! websocket conn = Some (mkSession name (user_id conn)).

(** Descending by timestamp. *)
Definition later (a b : Message.t) : Prop :=
  Message.timestamp b ≤ Message.timestamp a.


(** ** Scenarios *)

Definition send (to text : string) : Json :=
  Object (Some "send_message") (Some to) (Some text).

(** alice (id 1) and bob (id 2) have registered and logged in. *)
Definition two_users : State :=
  run initial [HttpRegister "alice"; HttpRegister "bob";
               HttpLogin "alice" true; HttpLogin "bob" true].

(** alice is connected on socket 1 and sends "hi" to bob, who has no
    connection. *)
Definition hi_sent : State :=
  run two_users [WsConnect 1%nat "alice"; WsText 1%nat (send "bob" "hi") 100].

Definition hi_row : Message.t := Message.mk 1 1 2 "hi" 100 0.

(** alice has opened socket 1 and then socket 2; both coroutines are in
    their loops. *)
Definition reconnected : State :=
  run two_users [WsConnect 1%nat "alice"; WsConnect 2%nat "alice"].

(** alice is on socket 1, bob on socket 2, and bob's peer has gone
    without his coroutine having noticed yet. *)
Definition bob_lost : State :=
  run two_users [WsConnect 1%nat "alice"; WsConnect 2%nat "bob"; ChannelLost 2].

(** alice opened sockets 1 and 2, and socket 1 has disconnected. *)
Definition evicted : State :=
  run two_users [WsConnect 1%nat "alice"; WsConnect 2%nat "alice"; WsDisconnect 1].

(** alice's live socket 2 has lost its registry entry and she has sent
    a message to herself: the row is stored unread. *)
Definition self_unread : State :=
  step evicted (WsText 2 (send "alice" "note") 100).

(** alice is on socket 1 and her peer has gone without her coroutine
    having noticed yet. *)
Definition alice_lost : State :=
  run two_users [WsConnect 1%nat "alice"; ChannelLost 1].

(** alice and bob have registered, logged in and connected, alice on
    socket 1 and bob on socket 2, and alice has sent "hi" to bob. Nobody
    has fetched a history. *)
Definition hi_pushed_events : list Event :=
  [HttpRegister "alice"; HttpRegister "bob";
   HttpLogin "alice" true; HttpLogin "bob" true;
   WsConnect 1%nat "alice"; WsConnect 2%nat "bob";
   WsText 1 (send "bob" "hi") 100].

Definition hi_pushed : State := run initial hi_pushed_events.

(** * Properties *)

(** ** Keys *)

Lemma next_id_above ids i : i ∈ ids → i < next_id ids.
Proof.
  unfold next_id. induction 1 as [i ids|i j ids _ IH]; simpl; lia.
Qed.

Lemma next_id_fresh (l : list Message.t) m :
  m ∈ l → Message.id m ≠ next_id (Message.id <$> l).
Proof.
  intros Hm Heq.
  assert (Message.id m ∈ Message.id <$> l) as Hin by (apply list_elem_of_fmap; eauto).
  apply next_id_above in Hin. lia.
Qed.

(** ** Rows only advance *)

Lemma advances_refl m : advances m m.
Proof. by left. Qed.

Lemma advances_id m m' : advances m m' → Message.id m' = Message.id m.
Proof. by intros [->|[_ ->]]. Qed.

Lemma advances_is_read m m' : advances m m' → Message.is_read m ≤ Message.is_read m'.
Proof. intros [->|[H0 ->]]; simpl; lia. Qed.

Lemma advances_rank m m' :
  advances m m' → rank (delivery_state m) ≤ rank (delivery_state m').
Proof.
  intros [->|[H0 ->]]; [lia|].
  unfold delivery_state; simpl. rewrite H0. repeat case_decide; simpl; lia.
Qed.

Lemma rows_advance_refl l : rows_advance l l.
Proof.
  exists l, []. split; [by rewrite app_nil_r|].
  apply Forall2_same_length_lookup_2; [done|].
  intros i x y ? ?. simplify_eq. apply advances_refl.
Qed.

Lemma rows_advance_app l extra : rows_advance l (l ++ extra).
Proof.
  exists l, extra. split; [done|].
  destruct (rows_advance_refl l) as (l' & e & Heq & HF).
  apply Forall2_same_length_lookup_2; [done|].
  intros i x y ? ?. simplify_eq. apply advances_refl.
Qed.

Lemma rows_advance_fmap (f : Message.t → Message.t) l :
  (∀ m, m ∈ l → advances m (f m)) → rows_advance l (f <$> l).
Proof.
  intros Hf. exists (f <$> l), []. split; [by rewrite app_nil_r|].
  apply Forall2_fmap_r, Forall2_same_length_lookup_2; [done|].
  intros i x y Hx Hy. simplify_eq. apply Hf. by eapply list_elem_of_lookup_2.
Qed.

Lemma rows_advance_lookup old new i m :
  rows_advance old new → old !! i = Some m →
  ∃ m', new !! i = Some m' ∧ advances m m'.
Proof.
  intros (old' & extra & -> & HF) Hi.
  destruct (Forall2_lookup_l _ _ _ _ _ HF Hi) as (m' & Hm' & Hadv).
  exists m'. split; [|done]. by apply lookup_app_l_Some.
Qed.

Lemma mark_read_advances u m : advances m (mark_read u m).
Proof.
  unfold mark_read. case_decide as H; [|apply advances_refl].
  right. by destruct H.
Qed.

Lemma mark_chat_read_advances u p m : advances m (mark_chat_read u p m).
Proof.
  unfold mark_chat_read. case_decide; [apply mark_read_advances|apply advances_refl].
Qed.

(** The delivery update touches the row just inserted and no other. *)
Lemma mark_delivered_new (d : Db) m :
  Message.id m = next_id (Message.id <$> messages d) →
  messages (mark_delivered (Message.id m) (persist m d)) =
  messages d ++ [Message.set_is_read 1 m].
Proof.
  intros Hid. unfold mark_delivered, persist; simpl.
  rewrite fmap_app; simpl. rewrite decide_True by done. f_equal.
  rewrite <- (list_fmap_id (messages d)) at 2.
  apply list_fmap_ext. intros i x Hx.
  rewrite decide_False; [done|].
  rewrite Hid. apply next_id_fresh. by eapply list_elem_of_lookup_2.
Qed.

Lemma send_text_db ws f s : db (state_of (send_text ws f s)) = db s.
Proof. unfold send_text. by case_decide. Qed.

Lemma send_text_cases ws f s :
  send_text ws f s = Raise SendFailure s ∨
  send_text ws f s = Continue (log (SendText ws f) s).
Proof. unfold send_text. case_decide; auto. Qed.

(** Split on whether the first fully applied [send_text] raises. *)
Ltac case_send_text :=
  match goal with
  | |- context [send_text ?w ?f ?st] =>
      let H := fresh "Hsend" in
      destruct (send_text_cases w f st) as [H|H]; rewrite H
  end.

Lemma send_message_rows ws username uid to text now s :
  rows_advance (messages (db s))
    (messages (db (state_of (send_message ws username uid to text now s)))).
Proof.
  unfold send_message.
  destruct to as [to|]; [|rewrite send_text_db; apply rows_advance_refl].
  destruct (user_by_username (db s) (Some to)) as [receiver|];
    [|rewrite send_text_db; apply rows_advance_refl].
  destruct text as [text|]; [|apply rows_advance_refl].
  set (new_message := Message.mk _ _ _ _ _ _).
  simpl. destruct (active_connections s !! to) as [conn|]; simpl.
  - case_send_text; simpl.
    + apply rows_advance_app.
    + rewrite send_text_db; simpl.
      change (rows_advance (messages (db s))
                (messages (mark_delivered (Message.id new_message)
                             (persist new_message (db s))))).
      rewrite (mark_delivered_new (db s) new_message) by done.
      apply rows_advance_app.
  - rewrite send_text_db; simpl. apply rows_advance_app.
Qed.

Lemma on_text_rows ws ses data now s :
  rows_advance (messages (db s))
    (messages (db (state_of (on_text ws ses data now s)))).
Proof.
  destruct data as [|action to message]; simpl; [apply rows_advance_refl|].
  case_decide; [apply send_message_rows|].
  case_decide; [rewrite send_text_db|]; apply rows_advance_refl.
Qed.

Lemma step_rows s ev :
  rows_advance (messages (db s)) (messages (db (step s ev))).
Proof.
  destruct ev as [username|username ok|u p|ws username|ws data now|ws|ws]; simpl.
  - unfold register. destruct (user_by_username _ _); simpl; apply rows_advance_refl.
  - apply rows_advance_refl.
  - apply rows_advance_fmap. intros m _. apply mark_chat_read_advances.
  - case_decide; [apply rows_advance_refl|].
    unfold connect; simpl. destruct (user_sessions s !! username); simpl;
      [case_decide|]; simpl; apply rows_advance_refl.
  - destruct (handlers s !! ws) as [ses|]; [|apply rows_advance_refl].
    pose proof (on_text_rows ws ses data now s) as H.
    destruct (on_text ws ses data now s); simpl in *; done.
  - destruct (handlers s !! ws); simpl; apply rows_advance_refl.
  - case_decide; simpl; apply rows_advance_refl.
Qed.

(** C2. Over every operation of the system (a registration, a login, a
    history fetch, a connection, a received frame with its persist and
    its delivery update, a disconnect), every message row stays in the
    table under its id, and its state is never lower afterwards than
    before, neither as the stored flag nor in the order
    Sent < Delivered < Read. *)
Theorem delivery_state_never_regresses (s : State) (ev : Event) (i : nat) (m : Message.t) :
  messages (db s) !! i = Some m →
  ∃ m', messages (db (step s ev)) !! i = Some m' ∧
        Message.id m' = Message.id m ∧
        Message.is_read m ≤ Message.is_read m' ∧
        rank (delivery_state m) ≤ rank (delivery_state m').
Proof.
  intros Hi.
  destruct (rows_advance_lookup _ _ _ _ (step_rows s ev) Hi) as (m' & Hm' & Hadv).
  exists m'. split; [done|].
  split; [by apply advances_id|].
  split; [by apply advances_is_read|by apply advances_rank].
Qed.

Lemma delivery_state_never_regresses_witness :
  ∃ m', messages (db (step hi_sent (HttpGetMessages 2 1))) !! 0%nat = Some m' ∧
        Message.id m' = Message.id hi_row ∧
        Message.is_read hi_row ≤ Message.is_read m' ∧
        rank (delivery_state hi_row) ≤ rank (delivery_state m').
Proof.
  apply (delivery_state_never_regresses hi_sent (HttpGetMessages 2 1) 0 hi_row).
  vm_compute. reflexivity.
Defined.

(** ** The registry of live connections *)

Lemma deregister_delete username (ac : gmap string Connection) :
  deregister username ac = delete username ac.
Proof.
  unfold deregister. case_decide as H; [done|].
  symmetry. apply delete_id. by apply eq_None_not_Some.
Qed.

Lemma leave_active_connections ws ses s :
  active_connections (leave ws ses s) =
  delete (session_username ses) (active_connections s).
Proof. unfold leave; simpl. apply deregister_delete. Qed.

(** C3, as the code has it. The disconnect of a connection removes the
    registry entry of its username whenever there is one, whichever
    socket the entry holds: no handle is compared. Entries of other
    usernames stay, and the coroutine of the disconnected socket is
    gone. *)
Theorem disconnect_evicts_any_handle (s : State) (ws : nat) (ses : Session) :
  handlers s !! ws = Some ses →
  active_connections (step s (WsDisconnect ws)) !! session_username ses = None ∧
  (∀ name, name ≠ session_username ses →
     active_connections (step s (WsDisconnect ws)) !! name =
     active_connections s !! name) ∧
  handlers (step s (WsDisconnect ws)) !! ws = None.
Proof.
  intros Hws. simpl. rewrite Hws. rewrite leave_active_connections.
  split; [apply lookup_delete_eq|].
  split; [intros name Hne; by apply lookup_delete_ne|].
  simpl. apply lookup_delete_eq.
Qed.

Lemma disconnect_evicts_any_handle_witness :
  active_connections (step reconnected (WsDisconnect 1)) !! "alice" = None ∧
  (∀ name, name ≠ "alice" →
     active_connections (step reconnected (WsDisconnect 1)) !! name =
     active_connections reconnected !! name) ∧
  handlers (step reconnected (WsDisconnect 1)) !! 1%nat = None.
Proof.
  apply (disconnect_evicts_any_handle reconnected 1 (mkSession "alice" 1)).
  vm_compute. reflexivity.
Defined.

(** C3 fails as stated: socket 1 is stale, the entry of alice holds
    socket 2, and the disconnect of socket 1 evicts that entry. *)
Lemma stale_disconnect_evicts_newer :
  handlers reconnected !! 1%nat = Some (mkSession "alice" 1) ∧
  active_connections reconnected !! "alice" = Some (mkConnection 2 1) ∧
  active_connections (step reconnected (WsDisconnect 1)) !! "alice" = None ∧
  active_connections (step reconnected (WsDisconnect 1)) ≠
  active_connections reconnected.
Proof.
  assert (active_connections reconnected !! "alice" = Some (mkConnection 2 1)) as H2
    by (vm_compute; reflexivity).
  assert (active_connections (step reconnected (WsDisconnect 1)) !! "alice" = None) as H3
    by (vm_compute; reflexivity).
  split; [vm_compute; reflexivity|].
  split; [done|]. split; [done|].
  intros Heq. rewrite Heq in H3. congruence.
Qed.

(** C4, as the code has it. A connection under a username that already
    has an entry overwrites the entry: the lookup gives the new socket,
    the registry has the same usernames as before and the other entries
    are untouched. The socket of the prior entry is not closed: no close
    is issued on it, sends on it do not start to fail, and its coroutine
    stays in its loop. *)
Theorem reconnect_overwrites_entry (s : State) (ws : nat) (username : string)
    (uid : Z) (old : Connection) :
  handlers s !! ws = None → ws ∉ dead s →
  user_sessions s !! username = Some uid → uid ≠ 0 →
  active_connections s !! username = Some old →
  let s' := step s (WsConnect ws username) in
  active_connections s' !! username = Some (mkConnection ws uid) ∧
  dom (active_connections s') = dom (active_connections s) ∧
  (∀ name, name ≠ username →
     active_connections s' !! name = active_connections s !! name) ∧
  closes (websocket old) (trace s') = closes (websocket old) (trace s) ∧
  dead s' = dead s ∧
  (∀ ses, handlers s !! websocket old = Some ses →
          handlers s' !! websocket old = Some ses).
Proof.
  intros Hws Hdead Hses Huid Hold. simpl.
  rewrite decide_False; last first.
  { intros [[? H]|H]; [congruence|done]. }
  unfold connect; simpl. rewrite Hses. rewrite decide_False by done. simpl.
  split; [apply lookup_insert_eq|].
  split.
  { rewrite dom_insert_L. apply subseteq_union_1_L, singleton_subseteq_l.
    by eapply elem_of_dom_2. }
  split; [intros name Hne; by apply lookup_insert_ne|].
  split.
  { unfold closes. rewrite omap_app; simpl. by rewrite app_nil_r. }
  split; [done|].
  intros ses Hh. rewrite lookup_insert_ne; [done|]. intros ->. congruence.
Qed.

Lemma reconnect_overwrites_entry_witness :
  let s := run two_users [WsConnect 1%nat "alice"] in
  let s' := step s (WsConnect 2 "alice") in
  active_connections s' !! "alice" = Some (mkConnection 2 1) ∧
  dom (active_connections s') = dom (active_connections s) ∧
  (∀ name, name ≠ "alice" →
     active_connections s' !! name = active_connections s !! name) ∧
  closes 1 (trace s') = closes 1 (trace s) ∧
  dead s' = dead s ∧
  (∀ ses, handlers s !! 1%nat = Some ses → handlers s' !! 1%nat = Some ses).
Proof.
  apply (reconnect_overwrites_entry
           (run two_users [WsConnect 1%nat "alice"]) 2 "alice" 1 (mkConnection 1 1)).
  - vm_compute. reflexivity.
  - vm_compute. discriminate.
  - vm_compute. reflexivity.
  - lia.
  - vm_compute. reflexivity.
Defined.

(** C4 fails as stated: after alice's second connection the first
    socket has been closed zero times, not once; it is still writable
    and its coroutine still runs. *)
Lemma evicted_socket_never_closed :
  active_connections reconnected !! "alice" = Some (mkConnection 2 1) ∧
  length (closes 1 (trace reconnected)) = 0%nat ∧
  (1%nat ∉ dead reconnected) ∧
  handlers reconnected !! 1%nat = Some (mkSession "alice" 1).
Proof.
  split; [vm_compute; reflexivity|].
  split; [vm_compute; reflexivity|].
  split; [vm_compute; discriminate|].
  vm_compute; reflexivity.
Qed.

(** ** Routing a [send_message] frame *)

Lemma step_send_message s ws ses to text now :
  handlers s !! ws = Some ses →
  step s (WsText ws (Object (Some "send_message") to text) now) =
  match send_message ws (session_username ses) (session_user_id ses) to text now s with
  | Continue s' => s'
  | Raise _ s' => leave ws ses s'
  end.
Proof. intros H. unfold step. rewrite H. reflexivity. Qed.

Lemma send_text_alive ws f s :
  ws ∉ dead s → send_text ws f s = Continue (log (SendText ws f) s).
Proof. intros H. unfold send_text. by rewrite decide_False. Qed.

Lemma send_text_dead ws f s :
  ws ∈ dead s → send_text ws f s = Raise SendFailure s.
Proof. intros H. unfold send_text. by rewrite decide_True. Qed.

(** C8, as the code has it. A [send_message] frame whose [to] names no
    user never creates a row: the tables and the login sessions are as
    before, whatever happens to the error frame. When the sender's
    socket takes the write, the error frame is all that happens: the
    registry and the running coroutines, the sender's among them, are
    as before. When the write of the error frame raises, the sender
    receives nothing, its coroutine ends and the registry entry of its
    username is removed. *)
Theorem unknown_recipient_only_reports (s : State) (ws : nat) (ses : Session)
    (to text : option string) (now : Z) :
  handlers s !! ws = Some ses →
  user_by_username (db s) to = None →
  let s' := step s (WsText ws (Object (Some "send_message") to text) now) in
  db s' = db s ∧
  length (messages (db s')) = length (messages (db s)) ∧
  user_sessions s' = user_sessions s ∧
  (ws ∉ dead s →
     s' = log (SendText ws (Error (not_found to))) s ∧
     received ws (trace s') = received ws (trace s) ++ [Error (not_found to)] ∧
     handlers s' !! ws = Some ses ∧
     active_connections s' = active_connections s ∧
     handlers s' = handlers s ∧
     dead s' = dead s) ∧
  (ws ∈ dead s →
     s' = leave ws ses s ∧
     trace s' = trace s ∧
     handlers s' !! ws = None ∧
     active_connections s' = delete (session_username ses) (active_connections s)).
Proof.
  intros Hws Hto.
  assert (send_message ws (session_username ses) (session_user_id ses) to text now s
          = send_text ws (Error (not_found to)) s) as Hsend.
  { unfold send_message. destruct to as [to|]; [by rewrite Hto|done]. }
  cbv zeta. rewrite (step_send_message _ _ ses), Hsend by done.
  destruct (decide (ws ∈ dead s)) as [Hdead|Hdead].
  - rewrite send_text_dead by done. simpl.
    split; [done|]. split; [done|]. split; [done|]. split; [done|].
    intros _. split; [done|]. split; [done|].
    split; [apply lookup_delete_eq|apply deregister_delete].
  - rewrite send_text_alive by done. simpl.
    split; [done|]. split; [done|]. split; [done|]. split; [|done].
    intros _. repeat split; try done.
    unfold received. rewrite omap_app; simpl. by rewrite decide_True.
Qed.

Lemma unknown_recipient_only_reports_witness :
  let s := run two_users [WsConnect 1%nat "alice"] in
  let to := Some "carol" in
  let s' := step s (WsText 1 (Object (Some "send_message") to (Some "hi")) 100) in
  db s' = db s ∧
  length (messages (db s')) = length (messages (db s)) ∧
  user_sessions s' = user_sessions s ∧
  (1%nat ∉ dead s →
     s' = log (SendText 1 (Error (not_found to))) s ∧
     received 1 (trace s') = received 1 (trace s) ++ [Error (not_found to)] ∧
     handlers s' !! 1%nat = Some (mkSession "alice" 1) ∧
     active_connections s' = active_connections s ∧
     handlers s' = handlers s ∧
     dead s' = dead s) ∧
  (1%nat ∈ dead s →
     s' = leave 1 (mkSession "alice" 1) s ∧
     trace s' = trace s ∧
     handlers s' !! 1%nat = None ∧
     active_connections s' = delete "alice" (active_connections s)).
Proof.
  apply (unknown_recipient_only_reports
           (run two_users [WsConnect 1%nat "alice"]) 1 (mkSession "alice" 1)
           (Some "carol") (Some "hi") 100).
  - vm_compute. reflexivity.
  - vm_compute. reflexivity.
Defined.

(** C8 fails as stated: alice's peer has gone without her coroutine
    having noticed; her frame for the unknown carol brings her no error
    frame, her coroutine ends and her registry entry is removed. *)
Lemma unknown_recipient_write_fails :
  let s' := step alice_lost (WsText 1 (send "carol" "hi") 100) in
  handlers alice_lost !! 1%nat = Some (mkSession "alice" 1) ∧
  active_connections alice_lost !! "alice" = Some (mkConnection 1 1) ∧
  user_by_username (db alice_lost) (Some "carol") = None ∧
  received 1 (trace s') = [] ∧
  handlers s' !! 1%nat = None ∧
  active_connections s' !! "alice" = None ∧
  messages (db s') = messages (db alice_lost).
Proof. vm_compute. repeat split; reflexivity. Qed.

(** C1, as the code has it. When the recipient is registered and the
    push to the recipient's socket raises, the message row is already
    in the table and stays unread (Sent). Nothing is written to any
    socket: the sender gets no [message_sent] and no error frame. The
    exception leaves the sender's loop: the sender's coroutine ends,
    its socket is closed, and the registry entry of the sender's
    username is removed. *)
Theorem push_failure_ends_sender (s : State) (ws : nat) (ses : Session)
    (to text : string) (now : Z) (receiver : User.t) (conn : Connection) :
  handlers s !! ws = Some ses →
  user_by_username (db s) (Some to) = Some receiver →
  active_connections s !! to = Some conn →
  websocket conn ∈ dead s →
  let new_message :=
    Message.mk (next_id (Message.id <$> messages (db s)))
               (session_user_id ses) (User.id receiver) text now 0 in
  let s' := step s (WsText ws (send to text) now) in
  messages (db s') = messages (db s) ++ [new_message] ∧
  delivery_state new_message = Sent ∧
  trace s' = trace s ∧
  handlers s' !! ws = None ∧
  ws ∈ dead s' ∧
  active_connections s' = delete (session_username ses) (active_connections s).
Proof.
  intros Hws Hto Hconn Hdead. unfold send.
  rewrite (step_send_message _ _ ses) by done.
  unfold send_message. rewrite Hto. simpl. rewrite Hconn.
  rewrite send_text_dead by done. simpl.
  split; [done|]. split; [done|]. split; [done|].
  split; [apply lookup_delete_eq|].
  split; [set_solver|].
  apply deregister_delete.
Qed.

Lemma push_failure_ends_sender_witness :
  let s' := step bob_lost (WsText 1 (send "bob" "yo") 100) in
  messages (db s') = messages (db bob_lost) ++ [Message.mk 1 1 2 "yo" 100 0] ∧
  delivery_state (Message.mk 1 1 2 "yo" 100 0) = Sent ∧
  trace s' = trace bob_lost ∧
  handlers s' !! 1%nat = None ∧
  1%nat ∈ dead s' ∧
  active_connections s' = delete "alice" (active_connections bob_lost).
Proof.
  apply (push_failure_ends_sender bob_lost 1 (mkSession "alice" 1) "bob" "yo" 100
           (User.mk 2 "bob") (mkConnection 2 2)).
  - vm_compute. reflexivity.
  - vm_compute. reflexivity.
  - vm_compute. reflexivity.
  - vm_compute. reflexivity.
Defined.

(** C1 fails as stated: bob is registered but his socket raises on the
    push; alice's message is persisted unread, yet alice receives no
    [message_sent], her coroutine is gone and so is her registry
    entry. *)
Lemma push_failure_no_acknowledgment :
  let s' := step bob_lost (WsText 1 (send "bob" "yo") 100) in
  handlers bob_lost !! 1%nat = Some (mkSession "alice" 1) ∧
  active_connections bob_lost !! "bob" = Some (mkConnection 2 2) ∧
  messages (db s') = [Message.mk 1 1 2 "yo" 100 0] ∧
  received 1 (trace s') = [] ∧
  handlers s' !! 1%nat = None ∧
  active_connections s' !! "alice" = None.
Proof. vm_compute. repeat split; reflexivity. Qed.

(** ** The ids of sessions *)

Lemma known_users d d' name uid :
  users d' = users d → known d name uid → known d' name uid.
Proof.
  intros Hu (user & Hfind & Hid). exists user. split; [|done].
  unfold user_by_username in *. by rewrite Hu.
Qed.

Lemma known_register d n name uid :
  known d name uid → known (register n d).1 name uid.
Proof.
  intros (user & Hfind & Hid). unfold register.
  destruct (user_by_username d (Some n)); [by exists user|].
  exists user. split; [|done]. simpl in *.
  rewrite filter_app.
  destruct (filter (λ u, User.username u = name) (users d)); by simplify_eq/=.
Qed.

(** A pass through the loop body changes message rows and the trace,
    nothing else. *)
Lemma send_text_frame ws f s :
  let s' := state_of (send_text ws f s) in
  db s' = db s ∧ user_sessions s' = user_sessions s ∧
  active_connections s' = active_connections s ∧
  handlers s' = handlers s ∧ dead s' = dead s.
Proof. unfold send_text. by case_decide. Qed.

Lemma on_text_frame ws ses data now s :
  let s' := state_of (on_text ws ses data now s) in
  users (db s') = users (db s) ∧ user_sessions s' = user_sessions s ∧
  active_connections s' = active_connections s ∧
  handlers s' = handlers s ∧ dead s' = dead s.
Proof.
  destruct data as [|action to text]; simpl; [done|].
  case_decide; [|case_decide; [|done]]; last first.
  { destruct (send_text_frame ws
      (OnlineUsers (map_to_list (active_connections s)).*1
                   (length (map_to_list (active_connections s)).*1)) s)
      as (-> & ? & ? & ? & ?). done. }
  unfold send_message.
  destruct to as [to|]; last first.
  { by destruct (send_text_frame ws (Error (not_found None)) s) as (-> & ? & ? & ? & ?). }
  destruct (user_by_username (db s) (Some to)) as [receiver|]; last first.
  { by destruct (send_text_frame ws (Error (not_found (Some to))) s)
      as (-> & ? & ? & ? & ?). }
  destruct text as [text|]; [|done]. simpl.
  destruct (active_connections s !! to) as [conn|]; simpl.
  - case_send_text; simpl; [done|].
    case_send_text; simpl; done.
  - case_send_text; simpl; done.
Qed.

Lemma step_sessions_consistent s ev :
  sessions_consistent s → sessions_consistent (step s ev).
Proof.
  intros [Hlogin Hrun].
  destruct ev as [username|username ok|u p|ws username|ws data now|ws|ws]; simpl.
  - split; simpl; intros; apply known_register; eauto.
  - split; simpl; [|done]. unfold login.
    destruct (user_by_username (db s) (Some username)) as [user|] eqn:Hfind; [|done].
    destruct ok; [|done]. simpl. intros name uid.
    rewrite lookup_insert. case_decide; [|by auto].
    intros [= <-]. subst. by exists user.
  - split; simpl; intros; (eapply known_users; [|eauto]); done.
  - case_decide; [done|]. unfold connect; simpl.
    destruct (user_sessions s !! username) as [uid|] eqn:Huid; [|done].
    case_decide; [done|]. split; simpl; [done|].
    intros ws' ses. rewrite lookup_insert. case_decide; [|by apply Hrun].
    intros [= <-]. simpl. by apply Hlogin.
  - destruct (handlers s !! ws) as [ses|] eqn:Hws; [|done].
    destruct (on_text_frame ws ses data now s) as (Hu & Hs & _ & Hh & _).
    assert (sessions_consistent (state_of (on_text ws ses data now s))) as [Hl' Hr'].
    { split.
      - intros name uid. rewrite Hs. intros. eapply known_users; eauto.
      - intros ws' ses'. rewrite Hh. intros. eapply known_users; eauto. }
    destruct (on_text ws ses data now s) as [s'|e s']; simpl in *; [done|].
    split; simpl; [done|].
    intros ws' ses'. rewrite lookup_delete. case_decide; [done|]. apply Hr'.
  - destruct (handlers s !! ws) as [ses|]; [|done].
    split; simpl; [done|].
    intros ws' ses'. rewrite lookup_delete. case_decide; [done|]. apply Hrun.
  - case_decide; done.
Qed.

Lemma run_sessions_consistent evs : sessions_consistent (run initial evs).
Proof.
  unfold run. induction evs as [|ev evs IH] using rev_ind.
  - split; simpl; intros ? ?; by rewrite lookup_empty.
  - rewrite foldl_app. simpl. by apply step_sessions_consistent.
Qed.

(** ** A message to oneself *)

(** C9, as the code has it. In every state the system can reach, a
    [send_message] frame with a text whose [to] is the sender's own
    username, received on a writable socket while the registry entry of
    that username holds this very socket, persists a row whose sender
    and receiver are both the sender, pushes the [new_message] frame to
    the sender's socket, stores the row as read, and then writes the
    [message_sent] acknowledgment; the coroutine stays in its loop. *)
Theorem self_send_with_own_entry (evs : list Event) (ws : nat) (ses : Session)
    (text : string) (now : Z) :
  let s := run initial evs in
  let username := session_username ses in
  let uid := session_user_id ses in
  let new_id := next_id (Message.id <$> messages (db s)) in
  handlers s !! ws = Some ses → ws ∉ dead s →
  (∃ conn, active_connections s !! username = Some conn ∧ websocket conn = ws) →
  let s' := step s (WsText ws (send username text) now) in
  messages (db s') = messages (db s) ++ [Message.mk new_id uid uid text now 1] ∧
  trace s' = trace s ++ [SendText ws (NewMessage username uid text now new_id);
                         SendText ws (MessageSent username new_id now)] ∧
  handlers s' = handlers s ∧
  active_connections s' = active_connections s.
Proof.
  intros s username uid new_id Hws Hdead (conn & Hconn & Hsock) s'.
  destruct (run_sessions_consistent evs) as [_ Hrun].
  destruct (Hrun ws ses Hws) as (user & Hfind & Hid).
  fold s in Hfind. fold username in Hfind. fold uid in Hid.
  subst s'. unfold send. rewrite (step_send_message _ _ ses) by done.
  unfold send_message. fold username uid. rewrite Hfind. simpl.
  rewrite Hconn, Hsock.
  rewrite send_text_alive by done. simpl.
  rewrite send_text_alive by done. simpl.
  set (new_message := Message.mk _ _ _ _ _ _).
  change (messages (mark_delivered (Message.id new_message)
                      (persist new_message (db s)))
          = messages (db s) ++ [Message.mk new_id uid uid text now 1] ∧
          (trace s ++ [SendText ws (NewMessage username uid text now new_id)]) ++
            [SendText ws (MessageSent username new_id now)]
          = trace s ++ [SendText ws (NewMessage username uid text now new_id);
                        SendText ws (MessageSent username new_id now)] ∧
          handlers s = handlers s ∧ active_connections s = active_connections s).
  rewrite (mark_delivered_new (db s) new_message) by done.
  split; [subst new_message; unfold Message.set_is_read; simpl; by rewrite Hid|].
  split; [by rewrite <- app_assoc|done].
Qed.

Lemma self_send_with_own_entry_witness :
  let s := run initial [HttpRegister "alice"; HttpLogin "alice" true;
                        WsConnect 1%nat "alice"] in
  let s' := step s (WsText 1 (send "alice" "note") 100) in
  messages (db s') = messages (db s) ++ [Message.mk 1 1 1 "note" 100 1] ∧
  trace s' = trace s ++ [SendText 1 (NewMessage "alice" 1 "note" 100 1);
                         SendText 1 (MessageSent "alice" 1 100)] ∧
  handlers s' = handlers s ∧
  active_connections s' = active_connections s.
Proof.
  apply (self_send_with_own_entry
           [HttpRegister "alice"; HttpLogin "alice" true; WsConnect 1%nat "alice"]
           1 (mkSession "alice" 1) "note" 100).
  - vm_compute. reflexivity.
  - vm_compute. discriminate.
  - exists (mkConnection 1 1). split; vm_compute; reflexivity.
Defined.

(** C9 fails as stated. After alice's stale socket 1 disconnected, her
    live socket 2 has no registry entry: her message to herself is
    persisted unread and no [new_message] frame is pushed, only the
    acknowledgment. And while both sockets are open, a message to
    herself sent on socket 1 is pushed to socket 2. *)
Lemma self_send_not_pushed_back :
  (let s' := step evicted (WsText 2 (send "alice" "note") 100) in
   handlers evicted !! 2%nat = Some (mkSession "alice" 1) ∧
   messages (db s') = [Message.mk 1 1 1 "note" 100 0] ∧
   received 2 (trace s') = [MessageSent "alice" 1 100]) ∧
  (let s' := step reconnected (WsText 1 (send "alice" "note") 100) in
   handlers reconnected !! 1%nat = Some (mkSession "alice" 1) ∧
   received 1 (trace s') = [MessageSent "alice" 1 100] ∧
   received 2 (trace s') = [NewMessage "alice" 1 "note" 100 1]).
Proof. vm_compute. repeat split; reflexivity. Qed.

(** ** Ordering by timestamp *)

Section OrderByFacts.
Variable le : Z → Z → bool.

Lemma insert_row_Permutation m l : insert_row le m l ≡ₚ m :: l.
Proof.
  induction l as [|x l IH]; simpl; [done|].
  destruct (le _ _); [done|]. rewrite IH. apply Permutation_swap.
Qed.

Lemma order_by_Permutation l : order_by le l ≡ₚ l.
Proof.
  induction l as [|x l IH]; simpl; [done|].
  rewrite insert_row_Permutation. by rewrite IH.
Qed.

Lemma elem_of_order_by m l : m ∈ order_by le l ↔ m ∈ l.
Proof. by rewrite order_by_Permutation. Qed.

(** Sorting sees the timestamps only. *)
Lemma insert_row_fmap (f : Message.t → Message.t) m l :
  (∀ x, Message.timestamp (f x) = Message.timestamp x) →
  insert_row le (f m) (f <$> l) = f <$> insert_row le m l.
Proof.
  intros Hf. induction l as [|x l IH]; [done|].
  rewrite fmap_cons. cbn [insert_row]. rewrite !Hf.
  destruct (le _ _); [done|]. by rewrite fmap_cons, IH.
Qed.

Lemma order_by_fmap (f : Message.t → Message.t) l :
  (∀ x, Message.timestamp (f x) = Message.timestamp x) →
  order_by le (f <$> l) = f <$> order_by le l.
Proof.
  intros Hf. induction l as [|x l IH]; [done|].
  rewrite fmap_cons. unfold order_by in *. cbn [foldr].
  rewrite IH. by apply insert_row_fmap.
Qed.
End OrderByFacts.

Lemma insert_row_asc_sorted m l :
  Sorted earlier l → Sorted earlier (insert_row Z.leb m l).
Proof.
  induction 1 as [|x l Hl IH Hhd]; simpl.
  - by repeat constructor.
  - destruct (Z.leb_spec (Message.timestamp m) (Message.timestamp x)) as [Hle|Hlt].
    + by repeat constructor.
    + constructor; [done|].
      destruct l as [|y l]; simpl.
      * constructor. unfold earlier. lia.
      * destruct (Z.leb_spec (Message.timestamp m) (Message.timestamp y)).
        -- constructor. unfold earlier. lia.
        -- constructor. by inversion Hhd.
Qed.

Lemma order_by_asc_sorted l : Sorted earlier (order_by_timestamp_asc l).
Proof.
  unfold order_by_timestamp_asc.
  induction l as [|x l IH]; simpl; [constructor|].
  by apply insert_row_asc_sorted.
Qed.

(** ** The history of a conversation *)

Lemma in_chat_sym u p m : in_chat u p m ↔ in_chat p u m.
Proof. unfold in_chat. tauto. Qed.

Lemma elem_of_chat_rows u p d m :
  m ∈ chat_rows u p d ↔ in_chat u p m ∧ m ∈ messages d.
Proof.
  unfold chat_rows, order_by_timestamp_asc.
  by rewrite elem_of_order_by, list_elem_of_filter.
Qed.

Lemma chat_rows_sym u p d : chat_rows u p d = chat_rows p u d.
Proof.
  unfold chat_rows. f_equal. apply list_filter_iff. intros m. apply in_chat_sym.
Qed.

Lemma mark_read_fields u m :
  Message.id (mark_read u m) = Message.id m ∧
  Message.sender_id (mark_read u m) = Message.sender_id m ∧
  Message.receiver_id (mark_read u m) = Message.receiver_id m ∧
  Message.content (mark_read u m) = Message.content m ∧
  Message.timestamp (mark_read u m) = Message.timestamp m.
Proof. unfold mark_read. by case_decide. Qed.

Lemma mark_chat_read_fields u p m :
  Message.id (mark_chat_read u p m) = Message.id m ∧
  Message.sender_id (mark_chat_read u p m) = Message.sender_id m ∧
  Message.receiver_id (mark_chat_read u p m) = Message.receiver_id m ∧
  Message.content (mark_chat_read u p m) = Message.content m ∧
  Message.timestamp (mark_chat_read u p m) = Message.timestamp m.
Proof. unfold mark_chat_read. case_decide; [apply mark_read_fields|done]. Qed.

Lemma in_chat_mark_chat_read u p a b m :
  in_chat a b (mark_chat_read u p m) ↔ in_chat a b m.
Proof.
  destruct (mark_chat_read_fields u p m) as (_ & Hs & Hr & _).
  unfold in_chat. by rewrite Hs, Hr.
Qed.

Lemma filter_fmap_stable {A} (P : A → Prop) `{!∀ x, Decision (P x)}
    (f : A → A) (l : list A) :
  (∀ x, P (f x) ↔ P x) → filter P (f <$> l) = f <$> filter P l.
Proof.
  intros Hf. induction l as [|x l IH]; [done|].
  rewrite fmap_cons, !filter_cons, IH.
  destruct (decide (P x)) as [Hx|Hx].
  - rewrite decide_True by (by apply Hf). done.
  - rewrite decide_False; [done|]. by rewrite Hf.
Qed.

(** The rows a fetch returns are the rows of the query, marked. *)
Lemma chat_rows_after_fetch u p a b d :
  chat_rows a b (get_messages u p d).1 = mark_chat_read u p <$> chat_rows a b d.
Proof.
  unfold chat_rows, order_by_timestamp_asc; simpl.
  rewrite <- order_by_fmap by (intros x; apply mark_chat_read_fields).
  f_equal. apply filter_fmap_stable. intros m. apply in_chat_mark_chat_read.
Qed.

Lemma mark_chat_read_in_chat u p m :
  in_chat u p m → mark_chat_read u p m = mark_read u m.
Proof. intros H. unfold mark_chat_read. by rewrite decide_True. Qed.

Lemma mark_read_idemp u m : mark_read u (mark_read u m) = mark_read u m.
Proof.
  destruct (decide (Message.receiver_id m = u ∧ Message.is_read m = 0)) as [H|H].
  - assert (mark_read u m = Message.set_is_read 1 m) as ->
      by (unfold mark_read; by rewrite decide_True).
    unfold mark_read. rewrite decide_False; [done|]. simpl. intros [_ ?]. lia.
  - assert (mark_read u m = m) as E
      by (unfold mark_read; by rewrite decide_False).
    by rewrite !E.
Qed.

Lemma mark_chat_read_idemp u p m :
  mark_chat_read u p (mark_chat_read u p m) = mark_chat_read u p m.
Proof.
  destruct (decide (in_chat u p m)) as [H|H].
  - rewrite (mark_chat_read_in_chat u p m H).
    rewrite mark_chat_read_in_chat; [apply mark_read_idemp|].
    destruct (mark_read_fields u m) as (_ & Hs & Hr & _).
    unfold in_chat. by rewrite Hs, Hr.
  - assert (mark_chat_read u p m = m) as E
      by (unfold mark_chat_read; by rewrite decide_False).
    by rewrite !E.
Qed.

Lemma mark_read_received u m :
  Message.receiver_id m = u → Message.is_read (mark_read u m) ≠ 0.
Proof.
  intros Hr. unfold mark_read. case_decide as H; simpl; [lia|].
  intros H0. apply H. by split.
Qed.

Lemma fetched_row_committed u p d row :
  row ∈ chat_rows u p d → mark_read u row ∈ messages (get_messages u p d).1.
Proof.
  rewrite elem_of_chat_rows. intros [Hin Hrow]. simpl.
  rewrite <- (mark_chat_read_in_chat u p row Hin).
  by apply list_elem_of_fmap_2.
Qed.

(** C10. The response of a history fetch is built from the rows as
    committed: every entry shows the flag its row has in the table after
    the commit, and every entry whose row was received by the requester
    shows [is_read = true]. The response exists whenever every row's
    sender is in the directory. *)
Theorem fetch_reports_received_as_read (u p : Z) (d : Db) :
  (senders_known d → is_Some (get_messages u p d).2) ∧
  (∀ out, (get_messages u p d).2 = Some out →
     Forall2 (λ row o,
        MessageOut.id o = Message.id row ∧
        mark_read u row ∈ messages (get_messages u p d).1 ∧
        MessageOut.is_read o = negb (Message.is_read (mark_read u row) =? 0) ∧
        (Message.receiver_id row = u → MessageOut.is_read o = true))
       (chat_rows u p d) out).
Proof.
  split.
  - intros Hknown. simpl. apply mapM_is_Some, Forall_fmap, Forall_forall.
    intros row Hrow. simpl. unfold message_out.
    apply elem_of_chat_rows in Hrow as [_ Hrow].
    destruct (mark_read_fields u row) as (_ & -> & _).
    unfold user_by_id; simpl. destruct (Hknown row Hrow) as [sender Hs].
    unfold user_by_id in Hs. by rewrite Hs.
  - intros out Hout. simpl in Hout. apply mapM_Some_1 in Hout.
    apply Forall2_fmap_l in Hout.
    apply Forall2_same_length_lookup. split; [by eapply Forall2_length|].
    intros i row o Hrow Ho.
    pose proof (Forall2_lookup_lr _ _ _ _ _ _ Hout Hrow Ho) as Hmk.
    simpl in Hmk. unfold message_out in Hmk.
    destruct (user_by_id _ _) as [sender|]; [|done]. simpl in Hmk.
    injection Hmk as <-. simpl.
    split; [apply mark_read_fields|].
    split; [apply fetched_row_committed; by eapply list_elem_of_lookup_2|].
    split; [done|].
    intros Hr. apply negb_true_iff, Z.eqb_neq. by apply mark_read_received.
Qed.

Lemma fetch_reports_received_as_read_witness :
  is_Some (get_messages 2 1 (db hi_sent)).2 ∧
  Forall2 (λ row o,
      MessageOut.id o = Message.id row ∧
      mark_read 2 row ∈ messages (get_messages 2 1 (db hi_sent)).1 ∧
      MessageOut.is_read o = negb (Message.is_read (mark_read 2 row) =? 0) ∧
      (Message.receiver_id row = 2 → MessageOut.is_read o = true))
    (chat_rows 2 1 (db hi_sent)) [MessageOut.mk 1 1 "alice" "hi" 100 true].
Proof.
  split.
  - apply (proj1 (fetch_reports_received_as_read 2 1 (db hi_sent))).
    intros m Hm. vm_compute in Hm. apply list_elem_of_singleton in Hm as ->.
    vm_compute. eauto.
  - apply (proj2 (fetch_reports_received_as_read 2 1 (db hi_sent))).
    vm_compute. reflexivity.
Defined.

(** ** What a history fetch writes *)

Lemma mark_chat_read_fixed u p m :
  mark_chat_read u p m = m ↔
  ¬ (in_chat u p m ∧ Message.receiver_id m = u ∧ Message.is_read m = 0).
Proof.
  unfold mark_chat_read, mark_read. split.
  - intros Heq (Hin & Hr & Hs).
    rewrite !decide_True in Heq by done.
    apply (f_equal Message.is_read) in Heq. simpl in Heq. lia.
  - intros Hnot. case_decide as Hin; [|done]. case_decide as Hc; [|done].
    destruct Hnot. by destruct Hc.
Qed.

(** C6, as the code has it. A history fetch by [u] with [p] writes
    exactly the rows of the result that [u] received and whose stored
    flag is 0 (Sent): each gets the flag 1 in one write, straight from
    0, and is committed. Every other row of the table is left as it is:
    rows whose receiver is not the requester are never marked, so the
    fetch works in one direction, while a row the requester sent to
    itself counts as received; and a row whose flag is already 1,
    pushed live or fetched before, is not written again. The row a
    fetch writes is the row the delivery update of a live push would
    have written: the stored flag does not tell the two apart. *)
Theorem fetch_marks_received_unread (u p : Z) (d : Db) (i : nat) (m : Message.t) :
  messages d !! i = Some m →
  ∃ m', messages (get_messages u p d).1 !! i = Some m' ∧
    (m ∈ chat_rows u p d ∧ Message.receiver_id m = u ∧ Message.is_read m = 0 →
       m' = Message.set_is_read 1 m ∧
       delivery_state m = Sent ∧ Message.is_read m' = 1 ∧
       messages (mark_delivered (Message.id m) d) !! i = Some m') ∧
    (¬ (m ∈ chat_rows u p d ∧ Message.receiver_id m = u ∧ Message.is_read m = 0) →
       m' = m) ∧
    (Message.receiver_id m ≠ u → m' = m) ∧
    (Message.is_read m ≠ 0 → m' = m).
Proof.
  intros Hi. exists (mark_chat_read u p m). simpl.
  split; [by rewrite list_lookup_fmap, Hi|].
  assert (m ∈ messages d) as Hm by (by eapply list_elem_of_lookup_2).
  split; [|split; [|split]].
  - intros (Hrow & Hr & Hs). apply elem_of_chat_rows in Hrow as [Hin _].
    rewrite (mark_chat_read_in_chat u p m Hin).
    unfold mark_read. rewrite decide_True by done.
    split; [done|]. split; [unfold delivery_state; by rewrite decide_True|].
    split; [done|].
    rewrite list_lookup_fmap, Hi. simpl. by rewrite decide_True.
  - intros Hnot. apply mark_chat_read_fixed. intros (Hin & Hr & Hs).
    apply Hnot. split; [|done]. apply elem_of_chat_rows. by split.
  - intros Hr. apply mark_chat_read_fixed. by intros (_ & ? & _).
  - intros Hs. apply mark_chat_read_fixed. by intros (_ & _ & ?).
Qed.

Lemma fetch_marks_received_unread_witness :
  ∃ m', messages (get_messages 2 1 (db hi_sent)).1 !! 0%nat = Some m' ∧
    (hi_row ∈ chat_rows 2 1 (db hi_sent) ∧ Message.receiver_id hi_row = 2 ∧
       Message.is_read hi_row = 0 →
       m' = Message.set_is_read 1 hi_row ∧
       delivery_state hi_row = Sent ∧ Message.is_read m' = 1 ∧
       messages (mark_delivered (Message.id hi_row) (db hi_sent)) !! 0%nat = Some m') ∧
    (¬ (hi_row ∈ chat_rows 2 1 (db hi_sent) ∧ Message.receiver_id hi_row = 2 ∧
          Message.is_read hi_row = 0) →
       m' = hi_row) ∧
    (Message.receiver_id hi_row ≠ 2 → m' = hi_row) ∧
    (Message.is_read hi_row ≠ 0 → m' = hi_row).
Proof.
  apply (fetch_marks_received_unread 2 1 (db hi_sent) 0 hi_row).
  vm_compute. reflexivity.
Defined.

(** C6 fails as stated: the unread row alice sent to herself is a
    message the requester sent, and her fetch marks it. *)
Lemma fetch_marks_own_message :
  messages (db self_unread) = [Message.mk 1 1 1 "note" 100 0] ∧
  Message.sender_id (Message.mk 1 1 1 "note" 100 0) = 1 ∧
  messages (get_messages 1 1 (db self_unread)).1 = [Message.mk 1 1 1 "note" 100 1].
Proof. vm_compute. repeat split; reflexivity. Qed.

Lemma fmap_fixed {A} (f : A → A) (l : list A) :
  f <$> l = l ↔ ∀ x, x ∈ l → f x = x.
Proof.
  split.
  - intros Heq x Hx. apply list_elem_of_lookup in Hx as [i Hi].
    assert ((f <$> l) !! i = Some (f x)) as Hfi by (by rewrite list_lookup_fmap, Hi).
    rewrite Heq in Hfi. congruence.
  - intros Hf. rewrite <- (list_fmap_id l) at 2.
    apply list_fmap_ext. intros i x Hi. apply Hf. by eapply list_elem_of_lookup_2.
Qed.

Lemma message_out_same d d' m m' o o' :
  users d' = users d →
  Message.id m' = Message.id m → Message.sender_id m' = Message.sender_id m →
  Message.content m' = Message.content m →
  Message.timestamp m' = Message.timestamp m →
  message_out d m = Some o → message_out d' m' = Some o' → same_message o o'.
Proof.
  intros Hu Hid Hs Hc Ht. unfold message_out, user_by_id.
  rewrite Hu, Hs. destruct (head _) as [sender|]; simpl; [|done].
  intros [= <-] [= <-]. unfold same_message; simpl. by rewrite Hid, Hc, Ht.
Qed.

(** C7, as the code has it. On one state, [history(a,b)] and
    [history(b,a)] query the same rows: the messages of both directions
    of the pair, ascending by timestamp. After [a] has fetched, the
    fetch by [b] returns the same messages in the same order, equal in
    every field but the read flag, and it writes: it marks exactly the
    unread rows [b] received in the pair, so it leaves the state
    unchanged only if there are none. A repeated fetch by the same
    requester changes no state. *)
Theorem history_both_directions (a b : Z) (d : Db) :
  let d1 := (get_messages a b d).1 in
  let d2 := (get_messages b a d1).1 in
  chat_rows a b d = chat_rows b a d ∧
  (∀ m, m ∈ chat_rows a b d ↔ in_chat a b m ∧ m ∈ messages d) ∧
  Sorted earlier (chat_rows a b d) ∧
  (∀ outA outB, (get_messages a b d).2 = Some outA →
                (get_messages b a d1).2 = Some outB →
                Forall2 same_message outA outB) ∧
  messages d2 = mark_chat_read b a <$> messages d1 ∧
  (d2 = d1 ↔ ∀ m, m ∈ messages d1 →
       ¬ (in_chat b a m ∧ Message.receiver_id m = b ∧ Message.is_read m = 0)) ∧
  (get_messages a b d1).1 = d1.
Proof.
  intros d1 d2.
  split; [apply chat_rows_sym|].
  split; [intros m; apply elem_of_chat_rows|].
  split; [apply order_by_asc_sorted|].
  split; [|split; [done|split]].
  - intros outA outB HA HB. simpl in HA.
    apply mapM_Some_1 in HA. rewrite Forall2_fmap_l in HA.
    cbn [get_messages snd] in HB. apply mapM_Some_1 in HB.
    subst d1. rewrite chat_rows_after_fetch, <- chat_rows_sym in HB.
    rewrite !Forall2_fmap_l in HB.
    apply Forall2_same_length_lookup. split.
    { pose proof (Forall2_length _ _ _ HA). pose proof (Forall2_length _ _ _ HB).
      congruence. }
    intros i oA oB HoA HoB.
    destruct (Forall2_lookup_r _ _ _ _ _ HA HoA) as (r & Hr & HmA).
    pose proof (Forall2_lookup_lr _ _ _ _ _ _ HB Hr HoB) as HmB. simpl in HmA, HmB.
    destruct (mark_read_fields a r) as (Ai & As & _ & Ac & At).
    destruct (mark_read_fields b (mark_chat_read a b r)) as (Bi & Bs & _ & Bc & Bt).
    destruct (mark_chat_read_fields a b r) as (Ci & Cs & _ & Cc & Ct).
    eapply message_out_same; [| | | | |exact HmA|exact HmB]; simpl; congruence.
  - subst d2 d1. simpl. split.
    + intros Heq m Hm. apply mark_chat_read_fixed.
      injection Heq as Heq. by apply (proj1 (fmap_fixed _ _) Heq).
    + intros Hnone. f_equal. apply fmap_fixed. intros m Hm.
      apply mark_chat_read_fixed. by apply Hnone.
  - subst d1. unfold get_messages; simpl. f_equal.
    rewrite <- list_fmap_compose. apply list_fmap_ext.
    intros i m _. apply mark_chat_read_idemp.
Qed.

Lemma history_both_directions_witness :
  let d := db hi_sent in
  let d1 := (get_messages 1 2 d).1 in
  let d2 := (get_messages 2 1 d1).1 in
  chat_rows 1 2 d = chat_rows 2 1 d ∧
  (∀ m, m ∈ chat_rows 1 2 d ↔ in_chat 1 2 m ∧ m ∈ messages d) ∧
  Sorted earlier (chat_rows 1 2 d) ∧
  (∀ outA outB, (get_messages 1 2 d).2 = Some outA →
                (get_messages 2 1 d1).2 = Some outB →
                Forall2 same_message outA outB) ∧
  messages d2 = mark_chat_read 2 1 <$> messages d1 ∧
  (d2 = d1 ↔ ∀ m, m ∈ messages d1 →
       ¬ (in_chat 2 1 m ∧ Message.receiver_id m = 2 ∧ Message.is_read m = 0)) ∧
  (get_messages 1 2 d1).1 = d1.
Proof. exact (history_both_directions 1 2 (db hi_sent)). Defined.

(** C7 fails as stated: alice has sent "hi" to bob and fetches the
    history, which changes nothing; bob's fetch right after it does
    change the state, it marks the row read. *)
Lemma fetch_by_partner_changes_state :
  let d1 := (get_messages 1 2 (db hi_sent)).1 in
  d1 = db hi_sent ∧
  messages d1 = [Message.mk 1 1 2 "hi" 100 0] ∧
  messages (get_messages 2 1 d1).1 = [Message.mk 1 1 2 "hi" 100 1] ∧
  (get_messages 2 1 d1).1 ≠ d1.
Proof.
  vm_compute. repeat split; try reflexivity. discriminate.
Qed.

(** ** Conversation summaries *)

Lemma user_by_id_id d i user : user_by_id d i = Some user → User.id user = i.
Proof.
  unfold user_by_id. intros H. apply head_Some_elem_of in H.
  by apply list_elem_of_filter in H as [? _].
Qed.

Lemma chat_entry_unread u d pid c :
  chat_entry u d pid = Some c →
  Chat.partner_id c = pid ∧
  Chat.unread_count c = length (filter (unread_from pid u) (messages d)).
Proof.
  unfold chat_entry. destruct (user_by_id d pid) as [partner|] eqn:Hp; [|done].
  intros [= <-]. simpl. split; [by apply user_by_id_id in Hp|done].
Qed.

Lemma filter_none {A} (P : A → Prop) `{!∀ x, Decision (P x)} (l : list A) :
  (∀ x, x ∈ l → ¬ P x) → filter P l = [].
Proof.
  induction l as [|x l IH]; intros Hl; [done|].
  rewrite filter_cons, decide_False by (apply Hl; left).
  apply IH. intros y Hy. apply Hl. by right.
Qed.

(** Once [u] has fetched the history with [p], no row from [p] to [u]
    is unread. *)
Lemma no_unread_after_fetch u p d :
  filter (unread_from p u) (messages (get_messages u p d).1) = [].
Proof.
  apply filter_none. simpl. intros m' Hm' (Hs & Hr & H0).
  apply list_elem_of_fmap in Hm' as (m & -> & _).
  destruct (mark_chat_read_fields u p m) as (_ & Hs' & Hr' & _).
  rewrite Hs' in Hs. rewrite Hr' in Hr.
  assert (in_chat u p m) as Hin by (right; done).
  rewrite (mark_chat_read_in_chat u p m Hin) in H0.
  by apply (mark_read_received u m).
Qed.

(** What a [send_message] frame with a text for a registered recipient
    does to the table: one row more, stored as read when the push went
    out and as unread otherwise. *)
Lemma send_appends_row s ws ses to text now receiver :
  handlers s !! ws = Some ses →
  user_by_username (db s) (Some to) = Some receiver →
  ∃ flag,
    messages (db (step s (WsText ws (send to text) now))) =
      messages (db s) ++
      [Message.mk (next_id (Message.id <$> messages (db s)))
                  (session_user_id ses) (User.id receiver) text now flag] ∧
    ((∃ conn, active_connections s !! to = Some conn ∧ websocket conn ∉ dead s) →
       flag = 1) ∧
    (¬ (∃ conn, active_connections s !! to = Some conn ∧ websocket conn ∉ dead s) →
       flag = 0).
Proof.
  intros Hws Hto. unfold send.
  rewrite (step_send_message _ _ ses) by done.
  unfold send_message. rewrite Hto. simpl.
  set (new_message := Message.mk _ _ _ _ _ _).
  assert (messages (mark_delivered (Message.id new_message)
                      (persist new_message (db s)))
          = messages (db s) ++ [Message.set_is_read 1 new_message]) as Hmark
    by (by rewrite (mark_delivered_new (db s) new_message)).
  destruct (active_connections s !! to) as [conn|] eqn:Hconn; simpl.
  - destruct (decide (websocket conn ∈ dead s)) as [Hd|Hd].
    + rewrite send_text_dead by done. simpl.
      exists 0. split; [done|]. split; [|done].
      intros (conn' & [= <-] & Hlive). done.
    + rewrite send_text_alive by done. simpl.
      exists 1. split; [|split; [done|]].
      * case_send_text; simpl; exact Hmark.
      * intros Hnot. destruct Hnot. by exists conn.
  - exists 0. split; [|split; [|done]].
    + case_send_text; simpl; done.
    + by intros (conn' & [=] & _).
Qed.

(** C5, as the code has it. Every entry of a user's conversation list
    reports as [unread_count] the number of rows that the partner sent,
    the user received, and whose stored flag is 0, the rows in state
    Sent. A message pushed live to a connected recipient is stored with
    the flag 1 and is not counted, though no fetch has read it: a send
    raises the recipient's count for the sender by one exactly when no
    push went out. After a fetch of the history with a partner, the
    entry of that partner reports 0. In the scenario: alice sends "hi"
    to bob, who has no connection, and gets her acknowledgment; bob's
    list shows alice with one unread message and "hi" as the last
    message; bob's fetch returns the one message "hi"; bob's list then
    shows alice with no unread message. *)
Theorem unread_count_counts_unread :
  (∀ u d c, c ∈ get_user_chats u d →
     Chat.unread_count c =
     length (filter (unread_from (Chat.partner_id c) u) (messages d))) ∧
  (∀ p u m, unread_from p u m ↔
     Message.receiver_id m = u ∧ Message.sender_id m = p ∧
     Message.is_read m = 0 ∧ delivery_state m = Sent) ∧
  (∀ s ws ses to text now receiver,
     handlers s !! ws = Some ses →
     user_by_username (db s) (Some to) = Some receiver →
     let s' := step s (WsText ws (send to text) now) in
     let unread d := length (filter (unread_from (session_user_id ses) (User.id receiver))
                                    (messages d)) in
     let pushed := ∃ conn, active_connections s !! to = Some conn ∧
                           websocket conn ∉ dead s in
     (pushed → unread (db s') = unread (db s)) ∧
     (¬ pushed → unread (db s') = S (unread (db s)))) ∧
  (∀ u p d c, c ∈ get_user_chats u (get_messages u p d).1 →
     Chat.partner_id c = p → Chat.unread_count c = 0%nat) ∧
  (active_connections hi_sent !! "bob" = None ∧
   received 1 (trace hi_sent) = [MessageSent "bob" 1 100] ∧
   get_user_chats 2 (db hi_sent) = [Chat.mk 1 "alice" "hi" (Some 100) 1] ∧
   (get_messages 2 1 (db hi_sent)).2 = Some [MessageOut.mk 1 1 "alice" "hi" 100 true] ∧
   get_user_chats 2 (get_messages 2 1 (db hi_sent)).1 =
     [Chat.mk 1 "alice" "hi" (Some 100) 0]).
Proof.
  assert (∀ u d c, c ∈ get_user_chats u d →
     Chat.unread_count c =
     length (filter (unread_from (Chat.partner_id c) u) (messages d))) as Hcount.
  { intros u d c Hc. unfold get_user_chats in Hc.
    apply list_elem_of_omap in Hc as (pid & _ & Hentry).
    apply chat_entry_unread in Hentry as [-> ->]. done. }
  split; [exact Hcount|]. split; [|split; [|split]].
  - intros p u m. unfold unread_from, delivery_state. split.
    + intros (? & ? & ?). by rewrite decide_True.
    + intros (? & ? & ? & _). done.
  - intros s ws ses to text now receiver Hws Hto s' unread pushed.
    destruct (send_appends_row s ws ses to text now receiver Hws Hto)
      as (flag & Hrows & Hyes & Hno).
    subst unread s'. cbv beta. rewrite Hrows, filter_app, length_app.
    split.
    + intros Hp. rewrite (Hyes Hp).
      rewrite filter_cons, decide_False; [simpl; lia|].
      unfold unread_from; simpl. intros (_ & _ & ?). lia.
    + intros Hnp. rewrite (Hno Hnp).
      rewrite filter_cons, decide_True; [simpl; lia|].
      unfold unread_from; simpl. done.
  - intros u p d c Hc <-. rewrite (Hcount _ _ _ Hc).
    by rewrite no_unread_after_fetch.
  - vm_compute. repeat split; reflexivity.
Qed.

Lemma unread_count_counts_unread_witness :
  Chat.unread_count (Chat.mk 1 "alice" "hi" (Some 100) 1) =
  length (filter (unread_from 1 2) (messages (db hi_sent))).
Proof.
  apply (proj1 unread_count_counts_unread 2 (db hi_sent)
           (Chat.mk 1 "alice" "hi" (Some 100) 1)).
  vm_compute. left.
Defined.

(** C5 fails as stated: bob is connected when alice sends "hi", so the
    message is pushed to his socket and is Delivered; nobody fetches a
    history, so it is not Read; yet bob's list shows alice with no
    unread message. *)
Lemma pushed_message_not_counted :
  (∀ u p, HttpGetMessages u p ∉ hi_pushed_events) ∧
  received 2 (trace hi_pushed) = [NewMessage "alice" 1 "hi" 100 1] ∧
  messages (db hi_pushed) = [Message.mk 1 1 2 "hi" 100 1] ∧
  get_user_chats 2 (db hi_pushed) = [Chat.mk 1 "alice" "hi" (Some 100) 0].
Proof.
  split.
  - intros u p Hin. unfold hi_pushed_events in Hin.
    repeat (apply elem_of_cons in Hin as [Hin|Hin]; [discriminate|]).
    by apply not_elem_of_nil in Hin.
  - vm_compute. repeat split; reflexivity.
Qed.

(** * Further properties of the code *)

(** ** The directory of users *)

Lemma head_filter_None {A} (P : A → Prop) `{!∀ x, Decision (P x)} (l : list A) :
  head (filter P l) = None ↔ ∀ x, x ∈ l → ¬ P x.
Proof.
  split.
  - intros Hh x Hx HP. destruct (filter P l) as [|y k] eqn:Hf; [|done].
    by eapply (filter_nil_not_elem_of P l x).
  - intros Hl. by rewrite filter_none.
Qed.

(** In a list without two elements of the same key, the first element
    found under a key is the element itself. *)
Lemma head_filter_key {A K} `{EqDecision K} (f : A → K) (l : list A) (u : A) :
  NoDup (f <$> l) → u ∈ l → head (filter (λ x, f x = f u) l) = Some u.
Proof.
  induction l as [|x l IH]; intros Hnd Hu; [by apply not_elem_of_nil in Hu|].
  rewrite fmap_cons in Hnd. apply NoDup_cons in Hnd as [Hx Hnd].
  rewrite filter_cons. apply elem_of_cons in Hu as [->|Hu].
  - by rewrite decide_True.
  - rewrite decide_False; [by apply IH|].
    intros Heq. apply Hx. rewrite Heq. by apply list_elem_of_fmap_2.
Qed.

Lemma user_by_username_None d name :
  user_by_username d (Some name) = None ↔ name ∉ User.username <$> users d.
Proof.
  unfold user_by_username. rewrite head_filter_None. split.
  - intros Hl Hin. apply list_elem_of_fmap in Hin as (u & -> & Hu). by apply (Hl u).
  - intros Hnot u Hu Heq. apply Hnot. rewrite <- Heq. by apply list_elem_of_fmap_2.
Qed.

Lemma register_Some username d d' i :
  register username d = (d', Some i) →
  user_by_username d (Some username) = None ∧
  i = next_id (User.id <$> users d) ∧
  d' = mkDb (users d ++ [User.mk i username]) (messages d).
Proof.
  unfold register. destruct (user_by_username d (Some username)); [done|].
  by intros [= <- <-].
Qed.

Lemma register_directory_ok username d :
  directory_ok d → directory_ok (register username d).1.
Proof.
  intros (Hn & Hi & Hpos). unfold register.
  destruct (user_by_username d (Some username)) eqn:Hfind; [done|].
  apply user_by_username_None in Hfind.
  unfold directory_ok. cbn [fst users].
  split; [|split].
  - rewrite fmap_app. apply NoDup_app. split; [done|].
    split; [|apply NoDup_singleton].
    intros x Hx Hx'. apply list_elem_of_singleton in Hx'. by subst.
  - rewrite fmap_app. apply NoDup_app. split; [done|].
    split; [|apply NoDup_singleton].
    intros x Hx Hx'. apply list_elem_of_singleton in Hx'. simpl in Hx'. subst.
    apply next_id_above in Hx. lia.
  - intros u Hu. apply elem_of_app in Hu as [Hu|Hu]; [by apply Hpos|].
    apply list_elem_of_singleton in Hu as ->. simpl.
    unfold next_id. generalize (User.id <$> users d).
    intros ids. induction ids; simpl; lia.
Qed.

Lemma step_users s ev :
  users (db (step s ev)) = users (db s) ∨
  ∃ username, ev = HttpRegister username ∧
              users (db (step s ev)) = users (register username (db s)).1.
Proof.
  destruct ev as [username|username ok|u p|ws username|ws data now|ws|ws]; simpl.
  - right. by exists username.
  - by left.
  - by left.
  - left. case_decide; [done|]. unfold connect; simpl.
    destruct (user_sessions s !! username); [case_decide|]; done.
  - left. destruct (handlers s !! ws) as [ses|]; [|done].
    destruct (on_text_frame ws ses data now s) as (Hu & _).
    by destruct (on_text ws ses data now s).
  - left. by destruct (handlers s !! ws).
  - left. by case_decide.
Qed.

Lemma step_directory_ok s ev : directory_ok (db s) → directory_ok (db (step s ev)).
Proof.
  intros Hok. destruct (step_users s ev) as [Heq|(username & -> & Heq)].
  - unfold directory_ok in *. by rewrite Heq.
  - by apply register_directory_ok.
Qed.

Lemma run_directory_ok evs : directory_ok (db (run initial evs)).
Proof.
  unfold run. induction evs as [|ev evs IH] using rev_ind.
  - repeat split; simpl; [constructor|constructor|].
    intros u Hu. by apply not_elem_of_nil in Hu.
  - rewrite foldl_app. simpl. by apply step_directory_ok.
Qed.

(** X1. A registration that succeeds can be looked up both ways at
    once: the username and the new id each resolve to the new user. The
    new id is above every id the directory had, and no message row is
    touched. *)
Theorem register_then_lookup (username : string) (d d' : Db) (i : Z) :
  register username d = (d', Some i) →
  user_by_username d' (Some username) = Some (User.mk i username) ∧
  user_by_id d' i = Some (User.mk i username) ∧
  (∀ u, u ∈ users d → User.id u < i) ∧
  messages d' = messages d.
Proof.
  intros Hreg. apply register_Some in Hreg as (Hfree & -> & ->).
  assert (∀ u, u ∈ users d → User.id u < next_id (User.id <$> users d)) as Habove.
  { intros u Hu. apply next_id_above. by apply list_elem_of_fmap_2. }
  split; [|split; [|done]].
  - unfold user_by_username in *. simpl. rewrite filter_app.
    destruct (filter _ (users d)); [|done]. simpl.
    by rewrite filter_cons, decide_True.
  - unfold user_by_id. simpl. rewrite filter_app.
    rewrite (filter_none _ (users d)).
    + simpl. by rewrite filter_cons, decide_True.
    + intros u Hu Heq. apply Habove in Hu. lia.
Qed.

Lemma register_then_lookup_witness :
  let d := db two_users in
  let d' := mkDb (users d ++ [User.mk 3 "carol"]) (messages d) in
  user_by_username d' (Some "carol") = Some (User.mk 3 "carol") ∧
  user_by_id d' 3 = Some (User.mk 3 "carol") ∧
  (∀ u, u ∈ users d → User.id u < 3) ∧
  messages d' = messages d.
Proof.
  apply (register_then_lookup "carol" (db two_users)).
  vm_compute. reflexivity.
Defined.

(** X2. In every state the system reaches, the user list has no
    username twice and no id twice, its ids are at least 1, and each
    listed user is the one that both lookups return. *)
Theorem directory_has_no_duplicates (evs : list Event) :
  let d := db (run initial evs) in
  NoDup (get_users d).*2 ∧
  NoDup (get_users d).*1 ∧
  ∀ i name, (i, name) ∈ get_users d →
    1 ≤ i ∧
    user_by_id d i = Some (User.mk i name) ∧
    user_by_username d (Some name) = Some (User.mk i name).
Proof.
  intros d. destruct (run_directory_ok evs) as (Hn & Hi & Hpos). fold d in Hn, Hi, Hpos.
  unfold get_users. rewrite <- !list_fmap_compose.
  split; [done|]. split; [done|].
  intros i name Hin. apply list_elem_of_fmap in Hin as (u & [= -> ->] & Hu).
  assert (User.mk (User.id u) (User.username u) = u) as -> by (by destruct u).
  split; [by apply Hpos|]. split.
  - unfold user_by_id. by apply (head_filter_key User.id).
  - unfold user_by_username. by apply (head_filter_key User.username).
Qed.

(** X3. An identity is never changed: once the directory resolves a
    username to an id, it resolves it to the same id after every event
    of the system. *)
Theorem known_stays_known (s : State) (ev : Event) (name : string) (uid : Z) :
  known (db s) name uid → known (db (step s ev)) name uid.
Proof.
  intros Hk. destruct (step_users s ev) as [Heq|(username & -> & Heq)].
  - by apply (known_users (db s)).
  - apply (known_users (register username (db s)).1); [done|].
    by apply known_register.
Qed.

Lemma known_stays_known_witness :
  known (db (step two_users (HttpRegister "carol"))) "bob" 2.
Proof.
  apply (known_stays_known two_users (HttpRegister "carol") "bob" 2).
  exists (User.mk 2 "bob"). split; vm_compute; reflexivity.
Defined.

(** ** Logging in and connecting *)

Lemma set_user_sessions_same s : set_user_sessions (user_sessions s) s = s.
Proof. by destruct s. Qed.

(** X4. A login with a wrong password, or under a username nobody
    registered, changes nothing: no session is created, and a session
    the username already has is not revoked either. *)
Theorem failed_login_changes_nothing (s : State) (username : string) (ok : bool) :
  ok = false ∨ user_by_username (db s) (Some username) = None →
  (login username ok (db s) (user_sessions s)).2 = None ∧
  step s (HttpLogin username ok) = s.
Proof.
  intros Hfail. simpl. unfold login.
  destruct (user_by_username (db s) (Some username)) as [user|] eqn:Hfind.
  - destruct Hfail as [->|?]; [|done]. simpl. by rewrite set_user_sessions_same.
  - simpl. by rewrite set_user_sessions_same.
Qed.

Lemma failed_login_changes_nothing_witness :
  (login "alice" false (db two_users) (user_sessions two_users)).2 = None ∧
  step two_users (HttpLogin "alice" false) = two_users.
Proof.
  apply (failed_login_changes_nothing two_users "alice" false).
  left. reflexivity.
Defined.

Lemma step_connect_admitted s ws username uid :
  handlers s !! ws = None → ws ∉ dead s →
  user_sessions s !! username = Some uid → uid ≠ 0 →
  step s (WsConnect ws username) =
  set_handlers (<[ws := mkSession username uid]> (handlers s))
    (set_active_connections
       (<[username := mkConnection ws uid]> (active_connections s))
       (log (Accept ws) s)).
Proof.
  intros Hws Hdead Hses Huid. cbn [step]. rewrite decide_False; last first.
  { intros [[? H]|H]; [congruence|done]. }
  unfold connect. cbn [log user_sessions]. rewrite Hses.
  by rewrite decide_False.
Qed.

(** X5. Logging in and then connecting works for every registered
    user, in every state the system reaches: after a successful login, a
    new socket under that username is admitted to the loop with the id
    the directory has, it becomes the registry entry of the username,
    and it is not closed. *)
Theorem login_then_connect_admits (evs : list Event) (ws : nat)
    (username : string) (user : User.t) :
  let s := run initial evs in
  user_by_username (db s) (Some username) = Some user →
  handlers s !! ws = None → ws ∉ dead s →
  let s' := run s [HttpLogin username true; WsConnect ws username] in
  handlers s' !! ws = Some (mkSession username (User.id user)) ∧
  active_connections s' !! username = Some (mkConnection ws (User.id user)) ∧
  closes ws (trace s') = closes ws (trace s) ∧
  ws ∉ dead s'.
Proof.
  intros s Hfind Hws Hdead s'.
  destruct (run_directory_ok evs) as (_ & _ & Hpos). fold s in Hpos.
  assert (1 ≤ User.id user) as Hid.
  { apply Hpos. unfold user_by_username in Hfind.
    apply head_Some_elem_of, list_elem_of_filter in Hfind. tauto. }
  subst s'. unfold run. cbn [foldl].
  set (s1 := step s (HttpLogin username true)).
  assert (handlers s1 = handlers s ∧ dead s1 = dead s ∧ trace s1 = trace s ∧
          user_sessions s1 !! username = Some (User.id user)) as (Hh & Hd & Ht & Hs).
  { subst s1. cbn [step]. unfold login. rewrite Hfind. simpl.
    repeat split. apply lookup_insert_eq. }
  clearbody s1.
  rewrite (step_connect_admitted s1 ws username (User.id user));
    [|by rewrite Hh|by rewrite Hd|done|lia].
  simpl. split; [apply lookup_insert_eq|]. split; [apply lookup_insert_eq|].
  split; [|by rewrite Hd].
  rewrite Ht. unfold closes. rewrite omap_app. simpl. by rewrite app_nil_r.
Qed.

Lemma login_then_connect_admits_witness :
  let s := run initial [HttpRegister "alice"] in
  let s' := run s [HttpLogin "alice" true; WsConnect 7%nat "alice"] in
  handlers s' !! 7%nat = Some (mkSession "alice" 1) ∧
  active_connections s' !! "alice" = Some (mkConnection 7 1) ∧
  closes 7 (trace s') = closes 7 (trace s) ∧
  7%nat ∉ dead s'.
Proof.
  apply (login_then_connect_admits [HttpRegister "alice"] 7 "alice" (User.mk 1 "alice")).
  - vm_compute. reflexivity.
  - vm_compute. reflexivity.
  - vm_compute. discriminate.
Defined.

(** X6. A new socket under a username without a login session (none,
    or one holding the id 0) is accepted and then closed with code 1008.
    It gets no registry entry and no place in the loop: the tables, the
    sessions, the registry and the running coroutines are as before, and
    every frame that arrives on it afterwards is ignored. *)
Theorem unauthenticated_socket_is_closed (s : State) (ws : nat) (username : string) :
  handlers s !! ws = None → ws ∉ dead s →
  user_sessions s !! username = None ∨ user_sessions s !! username = Some 0 →
  let s' := step s (WsConnect ws username) in
  trace s' = trace s ++ [Accept ws; Close ws 1008 "User not authenticated"] ∧
  db s' = db s ∧ user_sessions s' = user_sessions s ∧
  active_connections s' = active_connections s ∧
  handlers s' = handlers s ∧
  dead s' = {[ws]} ∪ dead s ∧
  ∀ data now, step s' (WsText ws data now) = s'.
Proof.
  intros Hws Hdead Hses. cbn [step]. rewrite decide_False; last first.
  { intros [[? H]|H]; [congruence|done]. }
  assert (connect ws username s =
          set_dead ({[ws]} ∪ dead s)
            (log (Close ws 1008 "User not authenticated") (log (Accept ws) s))) as ->.
  { unfold connect. cbn [log user_sessions].
    destruct Hses as [->| ->]; [done|]. by rewrite decide_True. }
  simpl. rewrite <- app_assoc. repeat split; try done.
  intros data now. by rewrite Hws.
Qed.

Lemma unauthenticated_socket_is_closed_witness :
  let s' := step initial (WsConnect 1 "mallory") in
  trace s' = trace initial ++ [Accept 1; Close 1 1008 "User not authenticated"] ∧
  db s' = db initial ∧ user_sessions s' = user_sessions initial ∧
  active_connections s' = active_connections initial ∧
  handlers s' = handlers initial ∧
  dead s' = {[1%nat]} ∪ dead initial ∧
  ∀ data now, step s' (WsText 1 data now) = s'.
Proof.
  apply (unauthenticated_socket_is_closed initial 1 "mallory").
  - vm_compute. reflexivity.
  - vm_compute. discriminate.
  - left. vm_compute. reflexivity.
Defined.

(** ** The registry and the running coroutines *)

Lemma leave_registry_live ws ses s :
  handlers s !! ws = Some ses → registry_live s → registry_live (leave ws ses s).
Proof.
  intros Hws Hlive name conn. rewrite leave_active_connections.
  rewrite lookup_delete. case_decide as Hname; [done|].
  intros Hconn. simpl. rewrite lookup_delete_ne; [by apply Hlive|].
  intros Heq. apply Hlive in Hconn. rewrite <- Heq, Hws in Hconn.
  injection Hconn as ->. by apply Hname.
Qed.

Lemma step_registry_live s ev : registry_live s → registry_live (step s ev).
Proof.
  intros Hlive.
  destruct ev as [username|username ok|u p|ws username|ws data now|ws|ws]; cbn [step].
  - done.
  - done.
  - done.
  - case_decide as Hknown; [done|].
    assert (handlers s !! ws = None) as Hws.
    { apply eq_None_not_Some. intros H. apply Hknown. by left. }
    unfold connect. cbn [log user_sessions].
    destruct (user_sessions s !! username) as [uid|]; [|done].
    case_decide; [done|].
    intros name conn. simpl. rewrite lookup_insert. case_decide as Hname.
    + intros [= <-]. simpl. subst. apply lookup_insert_eq.
    + intros Hconn. apply Hlive in Hconn.
      rewrite lookup_insert_ne; [done|]. intros Heq.
      rewrite <- Heq in Hconn. congruence.
  - destruct (handlers s !! ws) as [ses|] eqn:Hws; [|done].
    destruct (on_text_frame ws ses data now s) as (_ & _ & Ha & Hh & _).
    assert (registry_live (state_of (on_text ws ses data now s))) as Hlive'.
    { intros name conn. rewrite Ha, Hh. apply Hlive. }
    destruct (on_text ws ses data now s) as [s'|e s']; simpl in *; [done|].
    apply leave_registry_live; [by rewrite Hh|done].
  - destruct (handlers s !! ws) as [ses|] eqn:Hws; [|done].
    by apply leave_registry_live.
  - by case_decide.
Qed.

Lemma run_registry_live evs : registry_live (run initial evs).
Proof.
  unfold run. induction evs as [|ev evs IH] using rev_ind.
  - intros name conn. simpl. by rewrite lookup_empty.
  - rewrite foldl_app. simpl. by apply step_registry_live.
Qed.

(** X7. The registry never holds a socket whose coroutine has ended: in
    every state the system reaches, the socket of each registry entry
    belongs to a coroutine that is in its loop under that very username,
    and the id stored in the entry is the id of both the coroutine and
    the directory. *)
Theorem registry_entries_are_live (evs : list Event) (name : string) (conn : Connection) :
  let s := run initial evs in
  active_connections s !! name = Some conn →
  handlers s !! websocket conn = Some (mkSession name (user_id conn)) ∧
  known (db s) name (user_id conn).
Proof.
  intros s Hconn.
  pose proof (run_registry_live evs name conn Hconn) as Hh.
  split; [done|].
  destruct (run_sessions_consistent evs) as [_ Hrun].
  apply (Hrun _ _ Hh).
Qed.

Lemma registry_entries_are_live_witness :
  handlers reconnected !! 2%nat = Some (mkSession "alice" 1) ∧
  known (db reconnected) "alice" 1.
Proof.
  apply (registry_entries_are_live
           [HttpRegister "alice"; HttpRegister "bob";
            HttpLogin "alice" true; HttpLogin "bob" true;
            WsConnect 1%nat "alice"; WsConnect 2%nat "alice"]
           "alice" (mkConnection 2 1)).
  vm_compute. reflexivity.
Defined.

(** ** Sending a message *)

Lemma set_db_same s : set_db (db s) s = s.
Proof. by destruct s. Qed.

(** X8. A [send_message] frame with a text, received on a writable
    socket, for a registered recipient who has no registry entry: the
    row is appended unread with the next id, the sender's id, the
    recipient's id, the text and the time of the send; the sender
    receives the [message_sent] frame with that id and time; nothing is
    written to any other socket and nothing else changes. *)
Theorem send_to_absent_recipient (s : State) (ws : nat) (ses : Session)
    (to text : string) (now : Z) (receiver : User.t) :
  handlers s !! ws = Some ses → ws ∉ dead s →
  user_by_username (db s) (Some to) = Some receiver →
  active_connections s !! to = None →
  let new_id := next_id (Message.id <$> messages (db s)) in
  let s' := step s (WsText ws (send to text) now) in
  messages (db s') = messages (db s) ++
    [Message.mk new_id (session_user_id ses) (User.id receiver) text now 0] ∧
  trace s' = trace s ++ [SendText ws (MessageSent to new_id now)] ∧
  users (db s') = users (db s) ∧ user_sessions s' = user_sessions s ∧
  active_connections s' = active_connections s ∧
  handlers s' = handlers s ∧ dead s' = dead s.
Proof.
  intros Hws Hdead Hto Hconn. unfold send.
  rewrite (step_send_message _ _ ses) by done.
  unfold send_message. rewrite Hto. simpl. rewrite Hconn. simpl.
  by rewrite send_text_alive.
Qed.

Lemma send_to_absent_recipient_witness :
  let s := run two_users [WsConnect 1%nat "alice"] in
  let s' := step s (WsText 1 (send "bob" "hi") 100) in
  messages (db s') = messages (db s) ++ [Message.mk 1 1 2 "hi" 100 0] ∧
  trace s' = trace s ++ [SendText 1 (MessageSent "bob" 1 100)] ∧
  users (db s') = users (db s) ∧ user_sessions s' = user_sessions s ∧
  active_connections s' = active_connections s ∧
  handlers s' = handlers s ∧ dead s' = dead s.
Proof.
  apply (send_to_absent_recipient (run two_users [WsConnect 1%nat "alice"])
           1 (mkSession "alice" 1) "bob" "hi" 100 (User.mk 2 "bob")).
  - vm_compute. reflexivity.
  - vm_compute. discriminate.
  - vm_compute. reflexivity.
  - vm_compute. reflexivity.
Defined.

(** X9. A [send_message] frame with a text, received on a writable
    socket, for a registered recipient whose registry entry holds a
    writable socket: the [new_message] frame, with the sender's name and
    id, the text, the time and the id of the row, is written to the
    socket of the entry; the row is stored as read; then the sender
    receives the [message_sent] frame. Nothing else changes. *)
Theorem send_to_present_recipient (s : State) (ws : nat) (ses : Session)
    (to text : string) (now : Z) (receiver : User.t) (conn : Connection) :
  handlers s !! ws = Some ses → ws ∉ dead s →
  user_by_username (db s) (Some to) = Some receiver →
  active_connections s !! to = Some conn → websocket conn ∉ dead s →
  let new_id := next_id (Message.id <$> messages (db s)) in
  let s' := step s (WsText ws (send to text) now) in
  messages (db s') = messages (db s) ++
    [Message.mk new_id (session_user_id ses) (User.id receiver) text now 1] ∧
  trace s' = trace s ++
    [SendText (websocket conn)
       (NewMessage (session_username ses) (session_user_id ses) text now new_id);
     SendText ws (MessageSent to new_id now)] ∧
  users (db s') = users (db s) ∧ user_sessions s' = user_sessions s ∧
  active_connections s' = active_connections s ∧
  handlers s' = handlers s ∧ dead s' = dead s.
Proof.
  intros Hws Hdead Hto Hconn Hlive new_id s'. subst s'. unfold send.
  rewrite (step_send_message _ _ ses) by done.
  unfold send_message. rewrite Hto. simpl. rewrite Hconn.
  rewrite send_text_alive by done. simpl.
  rewrite send_text_alive by done. simpl.
  set (new_message := Message.mk _ _ _ _ _ _).
  split; [|by rewrite <- app_assoc].
  change (messages (mark_delivered (Message.id new_message)
                      (persist new_message (db s)))
          = messages (db s) ++ [Message.set_is_read 1 new_message]).
  by rewrite (mark_delivered_new (db s) new_message).
Qed.

Lemma send_to_present_recipient_witness :
  let s := run two_users [WsConnect 1%nat "alice"; WsConnect 2%nat "bob"] in
  let s' := step s (WsText 1 (send "bob" "hi") 100) in
  messages (db s') = messages (db s) ++ [Message.mk 1 1 2 "hi" 100 1] ∧
  trace s' = trace s ++ [SendText 2 (NewMessage "alice" 1 "hi" 100 1);
                         SendText 1 (MessageSent "bob" 1 100)] ∧
  users (db s') = users (db s) ∧ user_sessions s' = user_sessions s ∧
  active_connections s' = active_connections s ∧
  handlers s' = handlers s ∧ dead s' = dead s.
Proof.
  apply (send_to_present_recipient
           (run two_users [WsConnect 1%nat "alice"; WsConnect 2%nat "bob"])
           1 (mkSession "alice" 1) "bob" "hi" 100 (User.mk 2 "bob") (mkConnection 2 2)).
  - vm_compute. reflexivity.
  - vm_compute. discriminate.
  - vm_compute. reflexivity.
  - vm_compute. reflexivity.
  - vm_compute. discriminate.
Defined.

(** X10. The row is written before any socket is touched: whatever the
    sockets do, a [send_message] frame with a text for a registered
    recipient appends exactly one row, with the next id, the sender's
    id, the recipient's id, the text and the time. The row is stored as
    read when the recipient's registry entry holds a writable socket,
    and as unread otherwise. *)
Theorem send_always_persists (s : State) (ws : nat) (ses : Session)
    (to text : string) (now : Z) (receiver : User.t) :
  handlers s !! ws = Some ses →
  user_by_username (db s) (Some to) = Some receiver →
  let new_id := next_id (Message.id <$> messages (db s)) in
  let s' := step s (WsText ws (send to text) now) in
  let pushed := ∃ conn, active_connections s !! to = Some conn ∧
                        websocket conn ∉ dead s in
  ∃ flag,
    messages (db s') = messages (db s) ++
      [Message.mk new_id (session_user_id ses) (User.id receiver) text now flag] ∧
    (pushed → flag = 1) ∧ (¬ pushed → flag = 0).
Proof.
  intros Hws Hto new_id s' pushed. subst s' pushed. unfold send.
  rewrite (step_send_message _ _ ses) by done.
  unfold send_message. rewrite Hto. simpl.
  set (new_message := Message.mk _ _ _ _ _ _).
  assert (messages (mark_delivered (Message.id new_message)
                      (persist new_message (db s)))
          = messages (db s) ++ [Message.set_is_read 1 new_message]) as Hmark
    by (by rewrite (mark_delivered_new (db s) new_message)).
  destruct (active_connections s !! to) as [conn|] eqn:Hconn; simpl.
  - destruct (decide (websocket conn ∈ dead s)) as [Hd|Hd].
    + rewrite send_text_dead by done. simpl.
      exists 0. split; [done|]. split; [|done].
      intros (conn' & [= <-] & Hlive). done.
    + rewrite send_text_alive by done. simpl.
      exists 1. split; [|split; [done|]].
      * case_send_text; simpl; exact Hmark.
      * intros Hnot. destruct Hnot. by exists conn.
  - exists 0. split; [|split; [|done]].
    + case_send_text; simpl; done.
    + by intros (conn' & [=] & _).
Qed.

Lemma send_always_persists_witness :
  let s' := step bob_lost (WsText 1 (send "bob" "yo") 100) in
  let pushed := ∃ conn, active_connections bob_lost !! "bob" = Some conn ∧
                        websocket conn ∉ dead bob_lost in
  ∃ flag,
    messages (db s') = messages (db bob_lost) ++ [Message.mk 1 1 2 "yo" 100 flag] ∧
    (pushed → flag = 1) ∧ (¬ pushed → flag = 0).
Proof.
  apply (send_always_persists bob_lost 1 (mkSession "alice" 1) "bob" "yo" 100
           (User.mk 2 "bob")).
  - vm_compute. reflexivity.
  - vm_compute. reflexivity.
Defined.

(** ** The ids of message rows *)

Lemma send_message_ids ws username uid to text now s :
  let ids := Message.id <$> messages (db s) in
  let ids' := Message.id <$>
                messages (db (state_of (send_message ws username uid to text now s))) in
  ids' = ids ∨ ids' = ids ++ [next_id ids].
Proof.
  intros ids ids'. subst ids'. unfold send_message.
  destruct to as [to|]; [|left; by rewrite send_text_db].
  destruct (user_by_username (db s) (Some to)) as [receiver|];
    [|left; by rewrite send_text_db].
  destruct text as [text|]; [|by left]. right.
  set (new_message := Message.mk _ _ _ _ _ _).
  simpl. destruct (active_connections s !! to) as [conn|]; simpl.
  - case_send_text; simpl; [by rewrite fmap_app|].
    rewrite send_text_db; simpl.
    change (Message.id <$> messages (mark_delivered (Message.id new_message)
                                       (persist new_message (db s)))
            = ids ++ [next_id ids]).
    rewrite (mark_delivered_new (db s) new_message) by done.
    by rewrite fmap_app.
  - rewrite send_text_db; simpl. by rewrite fmap_app.
Qed.

Lemma step_message_ids s ev :
  let ids := Message.id <$> messages (db s) in
  let ids' := Message.id <$> messages (db (step s ev)) in
  ids' = ids ∨ ids' = ids ++ [next_id ids].
Proof.
  intros ids ids'. subst ids'.
  destruct ev as [username|username ok|u p|ws username|ws data now|ws|ws]; cbn [step].
  - left. unfold register. by destruct (user_by_username _ _).
  - by left.
  - left. simpl. rewrite <- list_fmap_compose. apply list_fmap_ext.
    intros i m _. apply mark_chat_read_fields.
  - left. case_decide; [done|]. unfold connect; simpl.
    destruct (user_sessions s !! username); [case_decide|]; done.
  - destruct (handlers s !! ws) as [ses|]; [|by left].
    assert (Message.id <$> messages (db (state_of (on_text ws ses data now s))) = ids ∨
            Message.id <$> messages (db (state_of (on_text ws ses data now s)))
            = ids ++ [next_id ids]) as H.
    { destruct data as [|action to text]; simpl; [by left|].
      case_decide; [apply send_message_ids|].
      case_decide; [rewrite send_text_db|]; by left. }
    by destruct (on_text ws ses data now s).
  - left. by destruct (handlers s !! ws).
  - left. by case_decide.
Qed.

(** X11. In every state the system reaches, the ids of the message
    table grow strictly from row to row and start at 1 or above: no two
    rows share an id, and the order of the rows in the table is the
    order in which they were sent. *)
Theorem message_ids_ascend (evs : list Event) :
  let ids := Message.id <$> messages (db (run initial evs)) in
  StronglySorted Z.lt ids ∧ Forall (λ i, 1 ≤ i) ids ∧ NoDup ids.
Proof.
  simpl. assert (StronglySorted Z.lt (Message.id <$> messages (db (run initial evs))) ∧
                 Forall (λ i, 1 ≤ i) (Message.id <$> messages (db (run initial evs))))
    as [Hs Hp].
  { unfold run. induction evs as [|ev evs [IHs IHp]] using rev_ind.
    - split; constructor.
    - rewrite foldl_app. cbn [foldl].
      destruct (step_message_ids (foldl step initial evs) ev) as [-> | ->]; [done|].
      split.
      + apply StronglySorted_app_2; [|done|repeat constructor].
        intros x1 x2 Hx1 Hx2. apply list_elem_of_singleton in Hx2 as ->.
        by apply next_id_above.
      + apply Forall_app. split; [done|]. repeat constructor.
        unfold next_id. generalize (Message.id <$> messages (db (foldl step initial evs))).
        intros l. induction l; simpl; lia. }
  split; [done|]. split; [done|].
  clear Hp. induction Hs as [|x l _ IH Hx]; constructor; [|done].
  intros Hin. rewrite Forall_forall in Hx. specialize (Hx _ Hin). lia.
Qed.

(** ** Frames that are not a delivered send *)

(** X12. A frame that is no JSON object, and a [send_message] frame
    for a registered recipient that carries no text, raise before
    anything is written: no row is added, no frame goes to any socket,
    and the session is over, its coroutine gone and the registry entry
    of its username removed. *)
Theorem raising_frame_ends_session (s : State) (ws : nat) (ses : Session)
    (data : Json) (now : Z) :
  handlers s !! ws = Some ses →
  data = Malformed ∨
  (∃ to receiver, data = Object (Some "send_message") (Some to) None ∧
                  user_by_username (db s) (Some to) = Some receiver) →
  let s' := step s (WsText ws data now) in
  db s' = db s ∧ trace s' = trace s ∧ user_sessions s' = user_sessions s ∧
  handlers s' = delete ws (handlers s) ∧
  active_connections s' = delete (session_username ses) (active_connections s) ∧
  dead s' = {[ws]} ∪ dead s.
Proof.
  intros Hws Hdata.
  assert (step s (WsText ws data now) = leave ws ses s) as ->.
  { destruct Hdata as [->|(to & receiver & -> & Hto)].
    - cbn [step]. by rewrite Hws.
    - rewrite (step_send_message _ _ ses) by done.
      unfold send_message. by rewrite Hto. }
  simpl. by rewrite deregister_delete.
Qed.

Lemma raising_frame_ends_session_witness :
  let s := run two_users [WsConnect 1%nat "alice"] in
  let s' := step s (WsText 1 Malformed 100) in
  db s' = db s ∧ trace s' = trace s ∧ user_sessions s' = user_sessions s ∧
  handlers s' = delete 1%nat (handlers s) ∧
  active_connections s' = delete "alice" (active_connections s) ∧
  dead s' = {[1%nat]} ∪ dead s.
Proof.
  apply (raising_frame_ends_session (run two_users [WsConnect 1%nat "alice"])
           1 (mkSession "alice" 1) Malformed 100).
  - vm_compute. reflexivity.
  - left. reflexivity.
Defined.

(** X13. A frame whose action is neither [send_message] nor
    [get_online_users], or that has no action at all, is ignored: the
    state after it is the state before it, and the session goes on. *)
Theorem unknown_action_is_ignored (s : State) (ws : nat)
    (action to text : option string) (now : Z) :
  action ≠ Some "send_message" → action ≠ Some "get_online_users" →
  step s (WsText ws (Object action to text) now) = s.
Proof.
  intros H1 H2. cbn [step]. destruct (handlers s !! ws) as [ses|]; [|done].
  unfold on_text. by rewrite !decide_False.
Qed.

Lemma unknown_action_is_ignored_witness :
  step reconnected (WsText 1 (Object (Some "typing") (Some "bob") None) 100)
  = reconnected.
Proof.
  apply (unknown_action_is_ignored reconnected 1 (Some "typing") (Some "bob") None 100);
    discriminate.
Defined.

(** X14. The answer to [get_online_users] on a writable socket is one
    frame to the asker: it lists exactly the usernames that have a
    registry entry, each once, and its count is the number of entries.
    Nothing else changes. *)
Theorem online_users_is_the_registry (s : State) (ws : nat) (ses : Session)
    (to text : option string) (now : Z) :
  handlers s !! ws = Some ses → ws ∉ dead s →
  let s' := step s (WsText ws (Object (Some "get_online_users") to text) now) in
  ∃ names,
    s' = log (SendText ws (OnlineUsers names (length names))) s ∧
    NoDup names ∧
    (∀ name, name ∈ names ↔ is_Some (active_connections s !! name)) ∧
    length names = size (active_connections s).
Proof.
  intros Hws Hdead. cbn [step]. rewrite Hws.
  exists (map_to_list (active_connections s)).*1.
  split; [|split; [|split]].
  - unfold on_text. rewrite decide_False by done. rewrite decide_True by done.
    cbv zeta. by rewrite send_text_alive.
  - apply NoDup_fst_map_to_list.
  - intros name. rewrite list_elem_of_fmap. split.
    + intros ([k v] & -> & Hin). apply elem_of_map_to_list in Hin. by eexists.
    + intros [v Hv]. exists (name, v). split; [done|]. by apply elem_of_map_to_list.
  - by rewrite length_fmap, length_map_to_list.
Qed.

Lemma online_users_is_the_registry_witness :
  let s' := step reconnected (WsText 2 (Object (Some "get_online_users") None None) 100) in
  ∃ names,
    s' = log (SendText 2 (OnlineUsers names (length names))) reconnected ∧
    NoDup names ∧
    (∀ name, name ∈ names ↔ is_Some (active_connections reconnected !! name)) ∧
    length names = size (active_connections reconnected).
Proof.
  apply (online_users_is_the_registry reconnected 2 (mkSession "alice" 1) None None 100).
  - vm_compute. reflexivity.
  - vm_compute. discriminate.
Defined.

(** ** The list of conversations *)

Lemma elem_of_chat_partner_ids u d p :
  p ∈ chat_partner_ids u d ↔ ∃ m, m ∈ messages d ∧ in_chat u p m.
Proof.
  unfold chat_partner_ids. rewrite elem_of_list_to_set, elem_of_app.
  rewrite !elem_of_remove_dups, !list_elem_of_fmap. unfold in_chat. split.
  - intros [(m & -> & Hm)|(m & -> & Hm)];
      apply list_elem_of_filter in Hm as [? ?]; exists m; tauto.
  - intros (m & Hm & [[Hs Hr]|[Hs Hr]]); [left|right];
      exists m; (split; [done|]); by apply list_elem_of_filter.
Qed.

Lemma chat_entry_is_Some u d p : is_Some (chat_entry u d p) ↔ is_Some (user_by_id d p).
Proof.
  unfold chat_entry. destruct (user_by_id d p); split; intros [? ?]; by eauto.
Qed.

Lemma NoDup_omap_key {A B} (f : A → option B) (g : B → A) (l : list A) :
  (∀ x y, f x = Some y → g y = x) → NoDup l → NoDup (g <$> omap f l).
Proof.
  intros Hfg. induction 1 as [|x l Hx Hl IH]; [constructor|].
  cbn [omap list_omap]. destruct (f x) as [y|] eqn:Hy; [|done].
  rewrite fmap_cons. constructor; [|done].
  rewrite (Hfg _ _ Hy). intros Hin.
  apply list_elem_of_fmap in Hin as (y' & -> & Hy').
  apply list_elem_of_omap in Hy' as (x' & Hx' & Hfx').
  by rewrite (Hfg _ _ Hfx') in Hx.
Qed.

(** X15. The conversation list of a user has one entry for each
    partner, never two: a partner is listed exactly when the directory
    has a user of that id and the table has a message between the two,
    in either direction. *)
Theorem chats_list_each_partner_once (u : Z) (d : Db) :
  NoDup (Chat.partner_id <$> get_user_chats u d) ∧
  ∀ p, p ∈ Chat.partner_id <$> get_user_chats u d ↔
       is_Some (user_by_id d p) ∧ ∃ m, m ∈ messages d ∧ in_chat u p m.
Proof.
  split.
  - unfold get_user_chats. apply NoDup_omap_key; [|apply NoDup_elements].
    intros p c Hc. by apply chat_entry_unread in Hc as [? _].
  - intros p. rewrite <- elem_of_chat_partner_ids, <- chat_entry_is_Some.
    rewrite list_elem_of_fmap. unfold get_user_chats. split.
    + intros (c & -> & Hc). apply list_elem_of_omap in Hc as (pid & Hpid & Hentry).
      apply elem_of_elements in Hpid.
      destruct (chat_entry_unread _ _ _ _ Hentry) as [-> _]. by eauto.
    + intros [[c Hc] Hp]. exists c.
      split; [by destruct (chat_entry_unread _ _ _ _ Hc)|].
      apply list_elem_of_omap. exists p. split; [|done]. by apply elem_of_elements.
Qed.

Lemma insert_row_desc_sorted m l :
  Sorted later l → Sorted later (insert_row Z.geb m l).
Proof.
  induction 1 as [|x l Hl IH Hhd]; simpl.
  - by repeat constructor.
  - destruct (Z.geb_spec (Message.timestamp m) (Message.timestamp x)) as [Hge|Hlt].
    + repeat constructor; [done|done|]. unfold later. lia.
    + constructor; [done|].
      destruct l as [|y l]; simpl.
      * constructor. unfold later. lia.
      * destruct (Z.geb_spec (Message.timestamp m) (Message.timestamp y)).
        -- constructor. unfold later. lia.
        -- constructor. by inversion Hhd.
Qed.

Lemma order_by_desc_sorted l : Sorted later (order_by_timestamp_desc l).
Proof.
  unfold order_by_timestamp_desc.
  induction l as [|x l IH]; simpl; [constructor|].
  by apply insert_row_desc_sorted.
Qed.

Lemma later_trans : Relations_1.Transitive later.
Proof. intros a b c. unfold later. lia. Qed.

(** The first row of a descending order is a row of the list, and no
    row of the list is later. *)
Lemma head_order_by_desc l m :
  head (order_by_timestamp_desc l) = Some m →
  m ∈ l ∧ ∀ m', m' ∈ l → Message.timestamp m' ≤ Message.timestamp m.
Proof.
  intros Hhead.
  pose proof (Stdlib.Sorting.Sorted.Sorted_StronglySorted
                later_trans (order_by_desc_sorted l)) as Hs.
  unfold order_by_timestamp_desc in *.
  destruct (order_by Z.geb l) as [|x k] eqn:Hk; [done|].
  injection Hhead as ->.
  assert (∀ y, y ∈ l ↔ y ∈ m :: k) as Hin
    by (intros y; by rewrite <- Hk, elem_of_order_by).
  split; [apply Hin; left|].
  intros m' Hm'. apply Hin, elem_of_cons in Hm' as [->|Hm']; [done|].
  apply StronglySorted_cons in Hs as [Hall _].
  rewrite Forall_forall in Hall. by apply Hall.
Qed.

(** X16. Every entry of the conversation list shows a message that
    exists: its text and time are those of a row of the conversation
    with the partner, and no row of that conversation has a later
    time. The empty placeholders of the code are never shown. *)
Theorem chat_shows_latest_message (u : Z) (d : Db) (c : Chat.t) :
  c ∈ get_user_chats u d →
  ∃ m, m ∈ messages d ∧ in_chat u (Chat.partner_id c) m ∧
       Chat.last_message c = Message.content m ∧
       Chat.last_message_time c = Some (Message.timestamp m) ∧
       ∀ m', m' ∈ messages d → in_chat u (Chat.partner_id c) m' →
             Message.timestamp m' ≤ Message.timestamp m.
Proof.
  intros Hc. unfold get_user_chats in Hc.
  apply list_elem_of_omap in Hc as (p & Hp & Hentry).
  apply elem_of_elements, elem_of_chat_partner_ids in Hp as (m0 & Hm0 & Hin0).
  destruct (chat_entry_unread _ _ _ _ Hentry) as [Hpid _].
  unfold chat_entry in Hentry.
  destruct (user_by_id d p) as [partner|]; [|done].
  injection Hentry as <-. simpl in *. subst p.
  set (rows := filter (in_chat u (User.id partner)) (messages d)).
  destruct (head (order_by_timestamp_desc rows)) as [m|] eqn:Hhead.
  - apply head_order_by_desc in Hhead as [Hm Hmax].
    apply list_elem_of_filter in Hm as [Hin Hm].
    exists m. repeat split; try done.
    intros m' Hm' Hin'. apply Hmax. by apply list_elem_of_filter.
  - exfalso. unfold order_by_timestamp_desc in Hhead.
    assert (m0 ∈ order_by Z.geb rows) as Hm0'.
    { apply elem_of_order_by. by apply list_elem_of_filter. }
    destruct (order_by Z.geb rows); [by apply not_elem_of_nil in Hm0'|done].
Qed.

Lemma chat_shows_latest_message_witness :
  ∃ m, m ∈ messages (db hi_sent) ∧ in_chat 2 1 m ∧
       "hi" = Message.content m ∧
       Some 100 = Some (Message.timestamp m) ∧
       ∀ m', m' ∈ messages (db hi_sent) → in_chat 2 1 m' →
             Message.timestamp m' ≤ Message.timestamp m.
Proof.
  apply (chat_shows_latest_message 2 (db hi_sent)
           (Chat.mk 1 "alice" "hi" (Some 100) 1)).
  vm_compute. left.
Defined.

(** ** Fetching a history again *)

Lemma message_out_users d d' m :
  users d' = users d → message_out d' m = message_out d m.
Proof. intros Hu. unfold message_out, user_by_id. by rewrite Hu. Qed.

(** X17. A history fetch repeated by the same requester returns the
    very same response, read flags included, and stores nothing new. *)
Theorem refetch_returns_same_response (u p : Z) (d : Db) :
  let d1 := (get_messages u p d).1 in
  (get_messages u p d1).2 = (get_messages u p d).2 ∧
  (get_messages u p d1).1 = d1.
Proof.
  intros d1. split.
  - unfold get_messages at 1. cbn [snd].
    subst d1. rewrite chat_rows_after_fetch.
    unfold get_messages at 3. cbn [snd].
    rewrite <- list_fmap_compose.
    erewrite (list_fmap_ext (mark_read u ∘ mark_chat_read u p) (mark_read u)).
    + apply mapM_ext. intros m. by apply message_out_users.
    + intros i m Hm. simpl.
      apply list_elem_of_lookup_2, elem_of_chat_rows in Hm as [Hin _].
      rewrite (mark_chat_read_in_chat u p m Hin). apply mark_read_idemp.
  - subst d1. unfold get_messages; simpl. f_equal.
    rewrite <- list_fmap_compose. apply list_fmap_ext.
    intros i m _. apply mark_chat_read_idemp.
Qed.

(** ** What is written to sockets, and which are closed *)
















